(** * imageprocessing.go: a shallow embedding and its verified properties

    The program is glue code: it loads a JPEG, asks [smartcrop] for a
    rectangle, takes a sub-image view, and pushes the picture through a
    fixed chain of [bild] and [primitive] calls, saving the intermediate
    results.  The embedding keeps that shape:

    - Go's [image] package (rectangles, the buffer-backed image types and
      their [SubImage]/[At] methods) and [path.Join] are modelled
      concretely, with slices as windows into a heap of backing arrays so
      that sharing of pixel storage can be stated;
    - the third-party algorithms, the JPEG codec and the operating
      system's refusals are the fields of a record [Libs];
    - every function of the program is a computation in a state monad over
      a [World] (heap, file system, clock, random source) that also
      records the calls made to the outside, printing included, as a
      trace. *)

From Stdlib Require Import ZArith Lia Ascii String List Floats.
From stdpp Require Import base strings gmap list.

Set Warnings "-inexact-float".

Local Open Scope string_scope.
Local Open Scope list_scope.
Local Open Scope Z_scope.

(* ================================================================== *)
(** * Go's [int] on a 64-bit platform *)

Definition int_min : Z := - 2 ^ 63.
Definition int_max : Z := 2 ^ 63 - 1.

(** Two's-complement wrap-around of a mathematical integer. *)
Definition wrap (z : Z) : Z := (z + 2 ^ 63) mod 2 ^ 64 - 2 ^ 63.

Definition int_add (a b : Z) : Z := wrap (a + b).
Definition int_sub (a b : Z) : Z := wrap (a - b).
Definition int_mul (a b : Z) : Z := wrap (a * b).
(** Go's [/] on integers truncates toward zero. *)
Definition int_div (a b : Z) : Z := wrap (Z.quot a b).

Definition is_int (z : Z) : Prop := int_min <= z <= int_max.

(* ================================================================== *)
(** * Slices and the heap of backing arrays *)

(** A byte slice is a window into a backing array: the array's address
    ([None] for the nil slice), the offset of the window and its
    length.  Capacity equals length for every slice this program meets
    and is not tracked. *)
Record slice : Type := Slice { arr : option nat; off : Z; len : Z }.

Definition nil_slice : slice := Slice None 0 0.

(** The heap: backing arrays by address; bytes are integers in [0,256). *)
Definition Heap : Type := list (list Z).

(** [s[i:]]; [None] is the run-time panic "slice bounds out of range". *)
Definition slice_from (s : slice) (i : Z) : option slice :=
  if (0 <=? i) && (i <=? len s)
  then Some (Slice (arr s) (off s + i) (len s - i))
  else None.

(** The byte stored [i] places into the window of [s]. *)
Definition byte_at (h : Heap) (s : slice) (i : Z) : Z :=
  match arr s with
  | Some a =>
      match h !! a with
      | Some data => nth (Z.to_nat (off s + i)) data 0
      | None => 0
      end
  | None => 0
  end.

Definition bytes_at (h : Heap) (s : slice) (i : Z) (k : nat) : list Z :=
  map (fun j => byte_at h s (i + Z.of_nat j)) (seq 0 k).

(** [s[i : i+k]] read out; [None] is the panic "index out of range". *)
Definition slice_read (h : Heap) (s : slice) (i : Z) (k : nat) : option (list Z) :=
  if (0 <=? i) && (i + Z.of_nat k <=? len s)
  then Some (bytes_at h s i k)
  else None.

(** The whole window of [s] as a list of bytes. *)
Definition resolve (h : Heap) (s : slice) : list Z :=
  bytes_at h s 0 (Z.to_nat (len s)).

(** [make([]byte, n)] filled with [data]: a fresh backing array. *)
Definition alloc (data : list Z) (h : Heap) : slice * Heap :=
  (Slice (Some (length h)) 0 (Z.of_nat (length data)), h ++ [data]).

(* ================================================================== *)
(** * Package [image]: geometry and the image types *)

Module image.

Record Point : Type := Pt { X : Z; Y : Z }.

Record Rectangle : Type := Rectangle_ { Min : Point; Max : Point }.

(** [image.ZR], the zero rectangle. *)
Definition ZR : Rectangle := Rectangle_ (Pt 0 0) (Pt 0 0).

(** [r.Empty()] *)
Definition Empty (r : Rectangle) : bool :=
  (X (Min r) >=? X (Max r)) || (Y (Min r) >=? Y (Max r)).

(** [r.Intersect(s)]: the four assignments of the library in order,
    then the empty test. *)
Definition Intersect (r s : Rectangle) : Rectangle :=
  let minx := if X (Min r) <? X (Min s) then X (Min s) else X (Min r) in
  let miny := if Y (Min r) <? Y (Min s) then Y (Min s) else Y (Min r) in
  let maxx := if X (Max r) >? X (Max s) then X (Max s) else X (Max r) in
  let maxy := if Y (Max r) >? Y (Max s) then Y (Max s) else Y (Max r) in
  let r' := Rectangle_ (Pt minx miny) (Pt maxx maxy) in
  if Empty r' then ZR else r'.

(** [p.In(r)] for the point [p = (x, y)]. *)
Definition PointIn (x y : Z) (r : Rectangle) : bool :=
  (X (Min r) <=? x) && (x <? X (Max r)) &&
  (Y (Min r) <=? y) && (y <? Y (Max r)).

(** [r.In(s)]: every point of [r] is in [s]. *)
Definition RectIn (r s : Rectangle) : bool :=
  if Empty r then true
  else (X (Min s) <=? X (Min r)) && (X (Max r) <=? X (Max s)) &&
       (Y (Min s) <=? Y (Min r)) && (Y (Max r) <=? Y (Max s)).

(* ---------------------------------------------------------------- *)
(** ** The image types *)

(** The buffer-backed types that keep all channels of a pixel side by
    side in one [Pix] slice.  ([Paletted] and [NYCbCrA], which no JPEG
    decodes to, are left out.) *)
Inductive PixKind : Type :=
  | Alpha | Alpha16 | Gray | Gray16 | CMYK | NRGBA | NRGBA64 | RGBA | RGBA64.

Definition bytes_per_pixel (k : PixKind) : nat :=
  match k with
  | Alpha | Gray => 1
  | Alpha16 | Gray16 => 2
  | CMYK | NRGBA | RGBA => 4
  | NRGBA64 | RGBA64 => 8
  end%nat.

Inductive YCbCrSubsampleRatio : Type :=
  | Ratio444 | Ratio422 | Ratio420 | Ratio440 | Ratio411 | Ratio410.

(** A colour as the list of its channel bytes. *)
Definition Color : Type := list Z.

(** The concrete types behind the [image.Image] interface, over the
    representation [S] of a byte slice: [S := slice] is an image in
    memory, [S := list Z] is the same image with its slices read out. *)
Inductive ImageOf (S : Type) : Type :=
  | ImgPix (k : PixKind) (Pix : S) (Stride : Z) (Rect : Rectangle)
  | ImgYCbCr (Ys Cb Cr : S) (YStride CStride : Z)
             (SubsampleRatio : YCbCrSubsampleRatio) (Rect : Rectangle)
  | ImgUniform (C : Color).

Arguments ImgPix {S} k Pix Stride Rect.
Arguments ImgYCbCr {S} Ys Cb Cr YStride CStride SubsampleRatio Rect.
Arguments ImgUniform {S} C.

Definition Image : Type := ImageOf slice.
Definition ImageData : Type := ImageOf (list Z).

Definition image_map {S T : Type} (f : S -> T) (img : ImageOf S) : ImageOf T :=
  match img with
  | ImgPix k p st r => ImgPix k (f p) st r
  | ImgYCbCr y cb cr ys cs ratio r => ImgYCbCr (f y) (f cb) (f cr) ys cs ratio r
  | ImgUniform c => ImgUniform c
  end.

(** The slices an image holds. *)
Definition planes {S : Type} (img : ImageOf S) : list S :=
  match img with
  | ImgPix _ p _ _ => [p]
  | ImgYCbCr y cb cr _ _ _ _ => [y; cb; cr]
  | ImgUniform _ => []
  end.

(** [img.Bounds()] *)
Definition Bounds {S : Type} (img : ImageOf S) : Rectangle :=
  match img with
  | ImgPix _ _ _ r => r
  | ImgYCbCr _ _ _ _ _ _ r => r
  | ImgUniform _ => Rectangle_ (Pt (-1000000000) (-1000000000))
                               (Pt 1000000000 1000000000)
  end.

(** [p.PixOffset(x, y)] of the [Pix] types. *)
Definition PixOffset (k : PixKind) (Stride : Z) (Rect : Rectangle) (x y : Z) : Z :=
  int_add (int_mul (int_sub y (Y (Min Rect))) Stride)
          (int_mul (int_sub x (X (Min Rect))) (Z.of_nat (bytes_per_pixel k))).

(** [p.YOffset(x, y)] of [YCbCr]. *)
Definition YOffset (YStride : Z) (Rect : Rectangle) (x y : Z) : Z :=
  int_add (int_mul (int_sub y (Y (Min Rect))) YStride)
          (int_sub x (X (Min Rect))).

(** [p.COffset(x, y)] of [YCbCr]. *)
Definition COffset (ratio : YCbCrSubsampleRatio) (CStride : Z)
    (Rect : Rectangle) (x y : Z) : Z :=
  let mx := X (Min Rect) in
  let my := Y (Min Rect) in
  match ratio with
  | Ratio422 =>
      int_add (int_mul (int_sub y my) CStride)
              (int_sub (int_div x 2) (int_div mx 2))
  | Ratio420 =>
      int_add (int_mul (int_sub (int_div y 2) (int_div my 2)) CStride)
              (int_sub (int_div x 2) (int_div mx 2))
  | Ratio440 =>
      int_add (int_mul (int_sub (int_div y 2) (int_div my 2)) CStride)
              (int_sub x mx)
  | Ratio411 =>
      int_add (int_mul (int_sub y my) CStride)
              (int_sub (int_div x 4) (int_div mx 4))
  | Ratio410 =>
      int_add (int_mul (int_sub (int_div y 2) (int_div my 2)) CStride)
              (int_sub (int_div x 4) (int_div mx 4))
  | Ratio444 =>
      int_add (int_mul (int_sub y my) CStride) (int_sub x mx)
  end.

(** [p.SubImage(r)] of the [Pix] types: a view on the same [Pix].
    [None] is a panic of the slice expression [p.Pix[i:]]. *)
Definition Pix_SubImage (k : PixKind) (Pix : slice) (Stride : Z)
    (Rect : Rectangle) (r : Rectangle) : option Image :=
  let r := Intersect r Rect in
  if Empty r then Some (ImgPix k nil_slice 0 ZR)
  else
    let i := PixOffset k Stride Rect (X (Min r)) (Y (Min r)) in
    match slice_from Pix i with
    | Some pix => Some (ImgPix k pix Stride r)
    | None => None
    end.

(** [p.SubImage(r)] of [YCbCr]. *)
Definition YCbCr_SubImage (Ys Cb Cr : slice) (YStride CStride : Z)
    (ratio : YCbCrSubsampleRatio) (Rect : Rectangle) (r : Rectangle)
    : option Image :=
  let r := Intersect r Rect in
  if Empty r then Some (ImgYCbCr nil_slice nil_slice nil_slice 0 0 ratio ZR)
  else
    let yi := YOffset YStride Rect (X (Min r)) (Y (Min r)) in
    let ci := COffset ratio CStride Rect (X (Min r)) (Y (Min r)) in
    match slice_from Ys yi, slice_from Cb ci, slice_from Cr ci with
    | Some y', Some cb', Some cr' =>
        Some (ImgYCbCr y' cb' cr' YStride CStride ratio r)
    | _, _, _ => None
    end.

(** [img.At(x, y)]: the channel bytes of the pixel, the zero colour
    outside the bounds; [None] is an index panic. *)
Definition At (h : Heap) (img : Image) (x y : Z) : option Color :=
  match img with
  | ImgPix k Pix Stride Rect =>
      if negb (PointIn x y Rect) then Some (repeat 0 (bytes_per_pixel k))
      else slice_read h Pix (PixOffset k Stride Rect x y) (bytes_per_pixel k)
  | ImgYCbCr Ys Cb Cr YStride CStride ratio Rect =>
      if negb (PointIn x y Rect) then Some [0; 0; 0]
      else
        let yi := YOffset YStride Rect x y in
        let ci := COffset ratio CStride Rect x y in
        match slice_read h Ys yi 1, slice_read h Cb ci 1, slice_read h Cr ci 1 with
        | Some a, Some b, Some c => Some (a ++ b ++ c)
        | _, _, _ => None
        end
  | ImgUniform C => Some C
  end.

(** An image with its slices read out of the heap: what a library that
    only reads its argument can see of it. *)
Definition load (h : Heap) (img : Image) : ImageData :=
  image_map (resolve h) img.

End image.

Export image.

(* ================================================================== *)
(** * Package [path]: [Clean] and [Join] *)

Module path.

(** The output buffer of [Clean].  The library allocates it lazily and
    reads from the path itself as long as the output is a prefix of the
    path; the array here starts out as a copy of the path, which gives
    the same reads and writes. *)
Record lazybuf : Type := LazyBuf { buf : list ascii; w : nat }.

Definition index (b : lazybuf) (i : nat) : ascii := nth i (buf b) Ascii.zero.

Definition append (b : lazybuf) (c : ascii) : lazybuf :=
  LazyBuf (<[w b := c]> (buf b)) (S (w b)).

Definition to_string (b : lazybuf) : string :=
  string_of_list_ascii (take (w b) (buf b)).

Definition is_slash (c : ascii) : bool := Ascii.eqb c "/"%char.
Definition is_dot (c : ascii) : bool := Ascii.eqb c "."%char.

(** [for out.w > dotdot && out.index(out.w) != '/' { out.w-- }] *)
Fixpoint backtrack (fuel : nat) (dotdot : nat) (out : lazybuf) : lazybuf :=
  match fuel with
  | O => out
  | S fuel' =>
      if (dotdot <? w out)%nat && negb (is_slash (index out (w out)))
      then backtrack fuel' dotdot (LazyBuf (buf out) (pred (w out)))
      else out
  end.

(** [for ; r < n && path[r] != '/'; r++ { out.append(path[r]) }] *)
Fixpoint copy_element (fuel : nat) (p : list ascii) (n r : nat) (out : lazybuf)
    : nat * lazybuf :=
  match fuel with
  | O => (r, out)
  | S fuel' =>
      if (r <? n)%nat && negb (is_slash (nth r p Ascii.zero))
      then copy_element fuel' p n (S r) (append out (nth r p Ascii.zero))
      else (r, out)
  end.

(** The main loop [for r < n { switch { ... } }] of [Clean].  Every turn
    advances [r], so [n] turns of fuel are enough. *)
Fixpoint clean_loop (fuel : nat) (p : list ascii) (n : nat) (rooted : bool)
    (r dotdot : nat) (out : lazybuf) : lazybuf :=
  match fuel with
  | O => out
  | S fuel' =>
      if negb (r <? n)%nat then out
      else
        let at_ i := nth i p Ascii.zero in
        if is_slash (at_ r) then
          (* empty path element *)
          clean_loop fuel' p n rooted (S r) dotdot out
        else if is_dot (at_ r) && ((S r =? n)%nat || is_slash (at_ (S r))) then
          (* . element *)
          clean_loop fuel' p n rooted (S r) dotdot out
        else if is_dot (at_ r) && is_dot (at_ (S r)) &&
                ((S (S r) =? n)%nat || is_slash (at_ (S (S r)))) then
          (* .. element: remove to last / *)
          let r := S (S r) in
          if (dotdot <? w out)%nat then
            let out := LazyBuf (buf out) (pred (w out)) in
            clean_loop fuel' p n rooted r dotdot (backtrack (w out) dotdot out)
          else if negb rooted then
            let out := if (0 <? w out)%nat then append out "/"%char else out in
            let out := append (append out "."%char) "."%char in
            clean_loop fuel' p n rooted r (w out) out
          else
            clean_loop fuel' p n rooted r dotdot out
        else
          (* real path element; add slash if needed *)
          let out :=
            if (rooted && negb (w out =? 1)%nat) || (negb rooted && negb (w out =? 0)%nat)
            then append out "/"%char else out in
          let '(r, out) := copy_element n p n r out in
          clean_loop fuel' p n rooted r dotdot out
  end.

(** [path.Clean] *)
Definition Clean (path : string) : string :=
  match path with
  | EmptyString => "."
  | String c _ =>
      let p := list_ascii_of_string path in
      let n := length p in
      let rooted := is_slash c in
      let out := LazyBuf p 0 in
      let out :=
        if rooted then clean_loop n p n rooted 1 1 (append out "/"%char)
        else clean_loop n p n rooted 0 0 out in
      if (w out =? 0)%nat then "." else to_string out
  end.

(** [strings.Join(elem, sep)] *)
Fixpoint strings_Join (elem : list string) (sep : string) : string :=
  match elem with
  | [] => ""
  | [e] => e
  | e :: rest => e +:+ sep +:+ strings_Join rest sep
  end.

(** [path.Join]: the elements from the first non-empty one on, joined
    by slashes and cleaned. *)
Fixpoint Join (elem : list string) : string :=
  match elem with
  | [] => ""
  | e :: rest =>
      if String.eqb e "" then Join rest
      else Clean (strings_Join (e :: rest) "/")
  end.

End path.

(* ================================================================== *)
(** * Package [errors] (github.com/pkg/errors) *)

Module errors.

(** An error value: a message, or a cause wrapped with a message. *)
Inductive error : Type :=
  | New (message : string)
  | Wrap (err : error) (message : string).

(** [err.Error()] *)
Fixpoint Error (e : error) : string :=
  match e with
  | New m => m
  | Wrap cause m => m +:+ ": " +:+ Error cause
  end.

End errors.

Abbreviation error := errors.error.

(** A Go result pair [(T, error)] in which exactly one half is set. *)
Inductive result (T : Type) : Type :=
  | Ok (v : T)
  | Err (e : error).
Arguments Ok {T} v.
Arguments Err {T} e.

(* ================================================================== *)
(** * The world the program runs in *)

(** [transform.ResampleFilter]: the filters [bild] ships. *)
Inductive ResampleFilter : Type :=
  | NearestNeighbor | Box | Linear | Gaussian
  | MitchellNetravali | CatmullRom | Lanczos.

(** An open file: the name it was opened or created under. *)
Abbreviation File := string.

(** Calls that leave the program, in the order they are made. *)
Inductive Event : Type :=
  | EvOpen (name : string)
  | EvDecode (f : File)
  | EvCreate (name : string)
  | EvEncode (f : File) (img : Image) (quality : Z)
  | EvSmartcrop (img : Image) (width height : Z)
  | EvSubImage (img : Image) (r : Rectangle)
  | EvSaturation (img : Image) (change : float)
  | EvMultiply (bg fg : Image)
  | EvUnsharpMask (img : Image) (radius amount : float)
  | EvResize (img : Image) (width height : Z) (filter : ResampleFilter)
  | EvNow
  | EvSeed (seed : Z)
  | EvAverageImageColor (img : Image)
  | EvMakeColor (c : Color)
  | EvNumCPU
  | EvNewModel (target : Image) (background : Color) (size numWorkers : Z)
  | EvPrint (s : string)
  | EvStep (shapeType alpha repeat : Z)
  | EvContextImage
  | EvFatal (message : string).

Record World : Type := mkWorld {
  heap : Heap;                      (* backing arrays of the images *)
  fs : gmap string (list Z);        (* files by name *)
  now : Z;                          (* wall clock, nanoseconds *)
  rng : Z;                          (* state of the global math/rand source *)
  trace : list Event                (* calls made so far, oldest first *)
}.

Definition set_heap (h : Heap) (w : World) : World :=
  mkWorld h (fs w) (now w) (rng w) (trace w).
Definition set_fs (m : gmap string (list Z)) (w : World) : World :=
  mkWorld (heap w) m (now w) (rng w) (trace w).
Definition set_rng (s : Z) (w : World) : World :=
  mkWorld (heap w) (fs w) (now w) s (trace w).
Definition log_event (e : Event) (w : World) : World :=
  mkWorld (heap w) (fs w) (now w) (rng w) (trace w ++ [e]).

(** How a computation ends: with a value, by [os.Exit], or in a panic. *)
Inductive Outcome (A : Type) : Type :=
  | Val (a : A)
  | Exit (code : Z)
  | Panic.
Arguments Val {A} a.
Arguments Exit {A} code.
Arguments Panic {A}.

Definition M (A : Type) : Type := World -> Outcome A * World.

Definition ret {A : Type} (a : A) : M A := fun w => (Val a, w).

Definition bind {A B : Type} (m : M A) (k : A -> M B) : M B :=
  fun w =>
    match m w with
    | (Val a, w') => k a w'
    | (Exit c, w') => (Exit c, w')
    | (Panic, w') => (Panic, w')
    end.

Declare Scope go_scope.
Delimit Scope go_scope with go.
Notation "x <- m ;; k" := (bind m (fun x => k))
  (at level 100, m at next level, right associativity) : go_scope.
Notation "m ;; k" := (bind m (fun _ => k))
  (at level 100, right associativity) : go_scope.
Local Open Scope go_scope.

Definition emit (e : Event) : M unit := fun w => (Val tt, log_event e w).
Definition get_heap : M Heap := fun w => (Val (heap w), w).

(** Placing a freshly built image in memory: one new backing array per
    slice. *)
Definition new_image (d : ImageData) : M Image :=
  fun w =>
    match d with
    | ImgPix k p st r =>
        let '(s, h1) := alloc p (heap w) in
        (Val (ImgPix k s st r), set_heap h1 w)
    | ImgYCbCr y cb cr ys cs ratio r =>
        let '(sy, h1) := alloc y (heap w) in
        let '(scb, h2) := alloc cb h1 in
        let '(scr, h3) := alloc cr h2 in
        (Val (ImgYCbCr sy scb scr ys cs ratio r), set_heap h3 w)
    | ImgUniform c => (Val (ImgUniform c), w)
    end.

(** [for i := from; i < from+count; i++ { body }], threading the state
    the body updates. *)
Fixpoint for_range {S : Type} (count : nat) (i : Z) (body : Z -> S -> M S) (s : S) : M S :=
  match count with
  | O => ret s
  | Datatypes.S count' => s' <- body i s ;; for_range count' (i + 1) body s'
  end.

(* ================================================================== *)
(** * The libraries the program calls *)

(** The collaborators whose code is not part of the program.  The
    image algorithms see the pixel data of their arguments and build a
    new image; none of them keeps state between calls.  The shape-fitting
    engine is a state machine that draws from the global random source. *)
Record Libs : Type := mkLibs {
  (* the operating system refusing a name (missing directory, rights) *)
  open_refused : string -> option error;
  create_refused : string -> option error;
  (* image/jpeg *)
  decode_jpeg : list Z -> result ImageData;
  (* the bytes that reach the file, and the error that stopped the encoder *)
  encode_jpeg : ImageData -> Z -> list Z * option error;
  (* github.com/artyom/smartcrop *)
  find_crop : ImageData -> Z -> Z -> result Rectangle;
  (* github.com/anthonynsimon/bild *)
  saturation : ImageData -> float -> ImageData;
  multiply_blend : ImageData -> ImageData -> ImageData;
  unsharp_mask : ImageData -> float -> float -> ImageData;
  resize : ImageData -> Z -> Z -> ResampleFilter -> ImageData;
  (* github.com/fogleman/primitive *)
  average_color : ImageData -> Color;
  make_color : Color -> Color;
  Model : Type;
  new_model : ImageData -> Color -> Z -> Z -> Z -> Model * Z;
  step : Model -> Z -> Z -> Z -> Z -> Model * Z;
  context_image : Model -> ImageData;
  (* runtime *)
  num_cpu : Z
}.

Section Program.

Variable L : Libs.

(* ---------------------------------------------------------------- *)
(** ** The calls, as computations that log themselves *)

(** [os.Open(name)] *)
Definition os_Open (name : string) : M (result File) :=
  fun w =>
    let w := log_event (EvOpen name) w in
    match open_refused L name with
    | Some e => (Val (Err e), w)
    | None =>
        match fs w !! name with
        | Some _ => (Val (Ok name), w)
        | None => (Val (Err (errors.New ("open " +:+ name +:+ ": no such file or directory"))), w)
        end
    end.

(** [os.Create(name)]: creates the file or truncates it. *)
Definition os_Create (name : string) : M (result File) :=
  fun w =>
    let w := log_event (EvCreate name) w in
    match create_refused L name with
    | Some e => (Val (Err e), w)
    | None => (Val (Ok name), set_fs (<[name := []]> (fs w)) w)
    end.

(** [jpeg.Decode(f)] *)
Definition jpeg_Decode (f : File) : M (result Image) :=
  fun w =>
    let w := log_event (EvDecode f) w in
    match decode_jpeg L (default [] (fs w !! f)) with
    | Err e => (Val (Err e), w)
    | Ok d =>
        match new_image d w with
        | (Val img, w) => (Val (Ok img), w)
        | (Exit c, w) => (Exit c, w)
        | (Panic, w) => (Panic, w)
        end
    end.

(** [jpeg.Encode(f, img, &jpeg.Options{Quality: quality})]: what the
    encoder writes is appended to the file. *)
Definition jpeg_Encode (f : File) (img : Image) (quality : Z) : M (option error) :=
  fun w =>
    let w := log_event (EvEncode f img quality) w in
    let '(written, err) := encode_jpeg L (load (heap w) img) quality in
    (Val err, set_fs (<[f := default [] (fs w !! f) ++ written]> (fs w)) w).

(** [smartcrop.Crop(img, width, height)] *)
Definition smartcrop_Crop (img : Image) (width height : Z) : M (result Rectangle) :=
  emit (EvSmartcrop img width height) ;;
  h <- get_heap ;;
  ret (find_crop L (load h img) width height).

(** [adjust.Saturation(img, change)] *)
Definition adjust_Saturation (img : Image) (change : float) : M Image :=
  emit (EvSaturation img change) ;;
  h <- get_heap ;;
  new_image (saturation L (load h img) change).

(** [blend.Multiply(bg, fg)] *)
Definition blend_Multiply (bg fg : Image) : M Image :=
  emit (EvMultiply bg fg) ;;
  h <- get_heap ;;
  new_image (multiply_blend L (load h bg) (load h fg)).

(** [effect.UnsharpMask(img, radius, amount)] *)
Definition effect_UnsharpMask (img : Image) (radius amount : float) : M Image :=
  emit (EvUnsharpMask img radius amount) ;;
  h <- get_heap ;;
  new_image (unsharp_mask L (load h img) radius amount).

(** [transform.Resize(img, width, height, filter)] *)
Definition transform_Resize (img : Image) (width height : Z)
    (filter : ResampleFilter) : M Image :=
  emit (EvResize img width height filter) ;;
  h <- get_heap ;;
  new_image (resize L (load h img) width height filter).

(** [time.Now().UTC().UnixNano()] *)
Definition time_Now_UnixNano : M Z :=
  fun w => (Val (now w), log_event EvNow w).

(** [rand.Seed(seed)] *)
Definition rand_Seed (seed : Z) : M unit :=
  fun w => (Val tt, set_rng seed (log_event (EvSeed seed) w)).

(** [primitive.AverageImageColor(img)] *)
Definition primitive_AverageImageColor (img : Image) : M Color :=
  emit (EvAverageImageColor img) ;;
  h <- get_heap ;;
  ret (average_color L (load h img)).

(** [primitive.MakeColor(c)] *)
Definition primitive_MakeColor (c : Color) : M Color :=
  emit (EvMakeColor c) ;;
  ret (make_color L c).

(** [runtime.NumCPU()] *)
Definition runtime_NumCPU : M Z :=
  emit EvNumCPU ;;
  ret (num_cpu L).

(** [primitive.NewModel(target, background, size, numWorkers)] *)
Definition primitive_NewModel (target : Image) (background : Color)
    (size numWorkers : Z) : M (Model L) :=
  fun w =>
    let w := log_event (EvNewModel target background size numWorkers) w in
    let '(m, s) := new_model L (load (heap w) target) background size numWorkers (rng w) in
    (Val m, set_rng s w).

(** [model.Step(shapeType, alpha, repeat)]; the model is updated in
    place, which is the new model here. *)
Definition Model_Step (model : Model L) (shapeType alpha repeat : Z) : M (Model L) :=
  fun w =>
    let w := log_event (EvStep shapeType alpha repeat) w in
    let '(m, s) := step L model shapeType alpha repeat (rng w) in
    (Val m, set_rng s w).

(** [model.Context.Image()] *)
Definition Model_Context_Image (model : Model L) : M Image :=
  emit EvContextImage ;;
  new_image (context_image L model).

(** [fmt.Print(s)] *)
Definition fmt_Print (s : string) : M unit := emit (EvPrint s).

(** [log.Fatal(err)]: prints the error and ends the process with
    status 1. *)
Definition log_Fatal {A : Type} (err : error) : M A :=
  fun w => (Exit 1, log_event (EvFatal (errors.Error err)) w).

(* ---------------------------------------------------------------- *)
(** ** imageprocessing.go *)

(** openImage imports an image from a given path. *)
Definition openImage (path : string) : M (result Image) :=
  r <- os_Open path ;;
  match r with
  | Err err => ret (Err (errors.Wrap err ("Cannot open " +:+ path)))
  | Ok imgFile =>
      (* Decode from JPG into image.Image format. *)
      r <- jpeg_Decode imgFile ;;
      match r with
      | Err err => ret (Err (errors.Wrap err "Decoding the image failed."))
      | Ok img => ret (Ok img)
      end
  end.

(** saveImage saves the image to [pname/fname]. *)
Definition saveImage (img : Image) (pname fname : string) : M (option error) :=
  let fpath := path.Join [pname; fname] in
  r <- os_Create fpath ;;
  match r with
  | Err err => ret (Some (errors.Wrap err ("Cannot create file: " +:+ fpath)))
  | Ok f =>
      err <- jpeg_Encode f img 85 ;;
      match err with
      | Some err => ret (Some (errors.Wrap err "Failed to encode the image as JPEG"))
      | None => ret None
      end
  end.

(** The SubImager interface exposes the SubImage method.  A value of the
    interface is a receiver together with its method. *)
Record SubImager : Type := mkSubImager {
  receiver : Image;
  SubImage : Rectangle -> option Image
}.

(** The type assertion [img.(SubImager)], in its two-result form: the
    method set of the dynamic type of [img] decides. *)
Definition assert_SubImager (img : Image) : option SubImager :=
  match img with
  | ImgPix k Pix Stride Rect =>
      Some (mkSubImager img (Pix_SubImage k Pix Stride Rect))
  | ImgYCbCr Ys Cb Cr YStride CStride ratio Rect =>
      Some (mkSubImager img (YCbCr_SubImage Ys Cb Cr YStride CStride ratio Rect))
  | ImgUniform _ => None
  end.

(** The method call [si.SubImage(r)]. *)
Definition call_SubImage (si : SubImager) (r : Rectangle) : M Image :=
  fun w =>
    let w := log_event (EvSubImage (receiver si) r) w in
    match SubImage si r with
    | Some sub => (Val sub, w)
    | None => (Panic, w)
    end.

(** crop auto-crops the image in-place. *)
Definition crop (img : Image) (width height : Z) : M (result Image) :=
  r <- smartcrop_Crop img width height ;;
  match r with
  | Err err => ret (Err (errors.Wrap err "Smartcrop failed"))
  | Ok rect =>
      (* Now let's crop the image to the suggested area. *)
      match assert_SubImager img with
      | None => ret (Err (errors.New "crop(): img does not support SubImage()"))
      | Some si =>
          subImg <- call_SubImage si rect ;;
          ret (Ok subImg)
      end
  end.

(** Apply 50% saturation *)
Definition saturate (img : Image) : M Image :=
  adjust_Saturation img 0.5%float.

(** Multiply the image with itself *)
Definition multiply (img : Image) : M Image :=
  blend_Multiply img img.

(** Sharpen the image using unsharp masking. *)
Definition sharpen (img : Image) : M Image :=
  effect_UnsharpMask img 0.6%float 1.2%float.

(** Making art. *)
Definition primitivePicture (img : Image) : M Image :=
  (* Resize the image to 256x256 to save processing time. *)
  img <- transform_Resize img 256 256 Linear ;;
  (* Seed random number generator. *)
  t <- time_Now_UnixNano ;;
  rand_Seed t ;;
  (* Set the background color. *)
  c <- primitive_AverageImageColor img ;;
  bg <- primitive_MakeColor c ;;
  n <- runtime_NumCPU ;;
  model <- primitive_NewModel img bg 1024 n ;;
  model <- for_range 100 0 (fun _ model =>
             fmt_Print "." ;;
             Model_Step model 5 128 0) model ;;
  Model_Context_Image model.

(** [x, err := f(); if err != nil { log.Fatal(err) }] *)
Notation "'check' x <- m ;; k" :=
  (bind m (fun r => match r with
                    | Err err => log_Fatal err
                    | Ok x => k
                    end))
  (at level 100, x name, m at next level, right associativity) : go_scope.

(** [err = f(); if err != nil { log.Fatal(err) }] *)
Notation "'check_err' m ;; k" :=
  (bind m (fun r => match r with
                    | Some err => log_Fatal err
                    | None => k
                    end))
  (at level 100, m at next level, right associativity) : go_scope.

Definition main : M unit :=
  check img <- openImage "original.jpg" ;;
  (* Crop attempts to find the best crop of img. *)
  check img <- crop img 1000 1000 ;;
  check_err saveImage img "." "cropped.jpg" ;;
  (* Let's continue with a manually cropped image. *)
  check img <- openImage "cropped.jpg" ;;
  (* Fun with bild. *)
  sat <- saturate img ;;
  check_err saveImage sat "." "saturated.jpg" ;;
  mult <- multiply img ;;
  check_err saveImage mult "." "multiplied.jpg" ;;
  shrp <- sharpen sat ;;
  check_err saveImage shrp "." "sharpened.jpg" ;;
  (* Create "primitive" art. *)
  pri <- primitivePicture sat ;;
  check_err saveImage pri "." "primitive.jpg" ;;
  ret tt.

End Program.

(* ================================================================== *)
(** * Vocabulary of the properties *)

(** ** Well-formed images

    The representation invariant of package [image]: coordinates and
    strides are [int]s, a row fits in the stride, and the last pixel of
    the bounds lies inside each slice.  The constructors of the package,
    its decoders and [SubImage] all establish it. *)

Definition rect_is_int (r : Rectangle) : Prop :=
  is_int (X (Min r)) /\ is_int (Y (Min r)) /\
  is_int (X (Max r)) /\ is_int (Y (Max r)).

(** A plane of [rows] rows of [cols] samples of [k] bytes fits a slice
    of length [n] under stride [st]. *)
Definition plane_fits (rows cols k st n : Z) : Prop :=
  0 <= st <= int_max /\ n <= int_max /\
  cols * k <= st /\ (rows - 1) * st + cols * k <= n.

(** Horizontal and vertical subsampling of the chroma planes. *)
Definition chroma_x (ratio : YCbCrSubsampleRatio) (x : Z) : Z :=
  match ratio with
  | Ratio444 | Ratio440 => x
  | Ratio422 | Ratio420 => Z.quot x 2
  | Ratio411 | Ratio410 => Z.quot x 4
  end.

Definition chroma_y (ratio : YCbCrSubsampleRatio) (y : Z) : Z :=
  match ratio with
  | Ratio444 | Ratio422 | Ratio411 => y
  | Ratio420 | Ratio440 | Ratio410 => Z.quot y 2
  end.

Definition wf_image (img : Image) : Prop :=
  match img with
  | ImgPix k Pix Stride Rect =>
      rect_is_int Rect /\
      (Empty Rect = false ->
       plane_fits (Y (Max Rect) - Y (Min Rect)) (X (Max Rect) - X (Min Rect))
                  (Z.of_nat (bytes_per_pixel k)) Stride (len Pix))
  | ImgYCbCr Ys Cb Cr YStride CStride ratio Rect =>
      rect_is_int Rect /\
      (Empty Rect = false ->
       let rows := chroma_y ratio (Y (Max Rect) - 1) - chroma_y ratio (Y (Min Rect)) + 1 in
       let cols := chroma_x ratio (X (Max Rect) - 1) - chroma_x ratio (X (Min Rect)) + 1 in
       plane_fits (Y (Max Rect) - Y (Min Rect)) (X (Max Rect) - X (Min Rect))
                  1 YStride (len Ys) /\
       plane_fits rows cols 1 CStride (len Cb) /\
       plane_fits rows cols 1 CStride (len Cr))
  | ImgUniform _ => True
  end.

(** ** Sharing of pixel storage *)

(** [s] is a view on [s']: the nil slice, or a window on the same
    backing array that starts no earlier and ends at the same place. *)
Definition view_of (s s' : slice) : Prop :=
  s = nil_slice \/
  (arr s = arr s' /\ off s' <= off s /\ off s + len s = off s' + len s').

(** Every slice of [sub] is a view on the matching slice of [img]. *)
Definition shares_storage (sub img : Image) : Prop :=
  Forall2 view_of (planes sub) (planes img).

(** No slice of [a] has the backing array of a slice of [b]. *)
Definition separate_storage (a b : Image) : Prop :=
  forall s s', s ∈ planes a -> s' ∈ planes b -> arr s <> arr s'.

(** Every slice of [img] lies in a backing array of the heap [h]. *)
Definition allocated (h : Heap) (img : Image) : Prop :=
  forall s a, s ∈ planes img -> arr s = Some a -> (a < length h)%nat.

(** Every slice of [img] has a backing array at address [n] or later. *)
Definition fresh_from (n : nat) (img : Image) : Prop :=
  forall s, s ∈ planes img -> exists a, arr s = Some a /\ (n <= a)%nat.

(** [sub] is the view of [img] through the rectangle [r]: its bounds
    are the part of [r] inside the image, it is well formed, it holds no
    pixels of its own, and whatever the memory holds, a pixel read
    within its bounds is the pixel of [img] at the same coordinates. *)
Definition is_view (img : Image) (r : Rectangle) (sub : Image) : Prop :=
  Bounds sub = Intersect r (Bounds img) /\
  wf_image sub /\
  shares_storage sub img /\
  (forall h x y, PointIn x y (Bounds sub) = true -> At h sub x y = At h img x y).

(** ** Reading the trace *)

Definition opened (t : list Event) : list string :=
  omap (fun e => match e with EvOpen n => Some n | _ => None end) t.

Definition created (t : list Event) : list string :=
  omap (fun e => match e with EvCreate n => Some n | _ => None end) t.

Definition encoded (t : list Event) : list (string * Z) :=
  omap (fun e => match e with EvEncode f _ q => Some (f, q) | _ => None end) t.



(** The calls of one round of the fitting loop. *)
Definition fitting_round : list Event := [EvPrint "."; EvStep 5 128 0].

(** The model and the random source after [n] rounds of fitting. *)
Fixpoint fitted (L : Libs) (n : nat) (m : Model L) (s : Z) : Model L * Z :=
  match n with
  | O => (m, s)
  | S n' => let '(m', s') := step L m 5 128 0 s in fitted L n' m' s'
  end.

(** The calls of [primitivePicture] on [sat], with the image [small] it
    works on, the clock reading [t], the colours [c] and [bg] and the
    number of workers [n]. *)
Definition primitive_calls (sat small : Image) (t : Z) (c bg : Color) (n : Z)
    : list Event :=
  [EvResize sat 256 256 Linear; EvNow; EvSeed t;
   EvAverageImageColor small; EvMakeColor c; EvNumCPU;
   EvNewModel small bg 1024 n] ++
  concat (replicate 100 fitting_round) ++ [EvContextImage].

(** The calls of a complete run of [main], with the images that flow
    between them. *)
Definition main_calls (img : Image) (rect : Rectangle)
    (sub img' sat mult shrp small pri : Image) (t : Z) (c bg : Color) (n : Z)
    : list Event :=
  [EvOpen "original.jpg"; EvDecode "original.jpg";
   EvSmartcrop img 1000 1000; EvSubImage img rect;
   EvCreate "cropped.jpg"; EvEncode "cropped.jpg" sub 85;
   EvOpen "cropped.jpg"; EvDecode "cropped.jpg";
   EvSaturation img' 0.5%float;
   EvCreate "saturated.jpg"; EvEncode "saturated.jpg" sat 85;
   EvMultiply img' img';
   EvCreate "multiplied.jpg"; EvEncode "multiplied.jpg" mult 85;
   EvUnsharpMask sat 0.6%float 1.2%float;
   EvCreate "sharpened.jpg"; EvEncode "sharpened.jpg" shrp 85] ++
  primitive_calls sat small t c bg n ++
  [EvCreate "primitive.jpg"; EvEncode "primitive.jpg" pri 85].

(** The heap [h'] is [h] with further arrays allocated. *)
Definition extends (h h' : Heap) : Prop := exists rest, h' = h ++ rest.

(** [f] is deterministic: its result is decided by the pixel data of
    its argument.  Run in two worlds in which the argument holds the same
    data, it returns in both, with images that hold the same data. *)
Definition deterministic (f : Image -> M Image) : Prop :=
  forall (img : Image) (w1 w2 : World),
    load (heap w1) img = load (heap w2) img ->
    exists o1 o2 w1' w2',
      f img w1 = (Val o1, w1') /\ f img w2 = (Val o2, w2') /\
      load (heap w1') o1 = load (heap w2') o2.



(** A file name proper: not empty, not [.] or [..], and without a
    slash. *)
Definition simple_name (name : string) : Prop :=
  name <> "" /\ name <> "." /\ name <> ".." /\
  Forall (fun c => c <> "/"%char) (list_ascii_of_string name).

(** The errors [main] can log: what the functions of the program wrap
    around, or say about, a failure. *)
Inductive main_error : error -> Prop :=
  | err_open (cause : error) (name : string) :
      name ∈ ["original.jpg"; "cropped.jpg"] ->
      main_error (errors.Wrap cause ("Cannot open " +:+ name))
  | err_decode (cause : error) :
      main_error (errors.Wrap cause "Decoding the image failed.")
  | err_detect (cause : error) :
      main_error (errors.Wrap cause "Smartcrop failed")
  | err_view :
      main_error (errors.New "crop(): img does not support SubImage()")
  | err_create (cause : error) (name : string) :
      name ∈ ["cropped.jpg"; "saturated.jpg"; "multiplied.jpg";
              "sharpened.jpg"; "primitive.jpg"] ->
      main_error (errors.Wrap cause ("Cannot create file: " +:+ name))
  | err_encode (cause : error) :
      main_error (errors.Wrap cause "Failed to encode the image as JPEG").

(** ** The stages of [main]

    [main] has eight steps that can return an error.  Each predicate
    says that the run from [w] got through the steps so far and names
    what they produced. *)
Section Stages.

Variable L : Libs.
Variable w : World.

Definition loaded (img : Image) (w1 : World) : Prop :=
  openImage L "original.jpg" w = (Val (Ok img), w1).

Definition cropped (sub : Image) (w2 : World) : Prop :=
  exists img w1, loaded img w1 /\
    crop L img 1000 1000 w1 = (Val (Ok sub), w2).

Definition saved_cropped (w3 : World) : Prop :=
  exists sub w2, cropped sub w2 /\
    saveImage L sub "." "cropped.jpg" w2 = (Val None, w3).

Definition reloaded (img : Image) (w4 : World) : Prop :=
  exists w3, saved_cropped w3 /\
    openImage L "cropped.jpg" w3 = (Val (Ok img), w4).

Definition saturated (img sat : Image) (w5 : World) : Prop :=
  exists w4, reloaded img w4 /\ saturate L img w4 = (Val sat, w5).

Definition saved_saturated (img sat : Image) (w6 : World) : Prop :=
  exists w5, saturated img sat w5 /\
    saveImage L sat "." "saturated.jpg" w5 = (Val None, w6).

Definition multiplied (sat mult : Image) (w7 : World) : Prop :=
  exists img w6, saved_saturated img sat w6 /\
    multiply L img w6 = (Val mult, w7).

Definition saved_multiplied (sat : Image) (w8 : World) : Prop :=
  exists mult w7, multiplied sat mult w7 /\
    saveImage L mult "." "multiplied.jpg" w7 = (Val None, w8).

Definition sharpened (sat shrp : Image) (w9 : World) : Prop :=
  exists w8, saved_multiplied sat w8 /\ sharpen L sat w8 = (Val shrp, w9).

Definition saved_sharpened (sat : Image) (w10 : World) : Prop :=
  exists shrp w9, sharpened sat shrp w9 /\
    saveImage L shrp "." "sharpened.jpg" w9 = (Val None, w10).

Definition approximated (pri : Image) (w11 : World) : Prop :=
  exists sat w10, saved_sharpened sat w10 /\
    primitivePicture L sat w10 = (Val pri, w11).

(** Some step returns the error [e], leaving the world [wf]. *)
Inductive StepFails : error -> World -> Prop :=
  | fails_load e wf :
      openImage L "original.jpg" w = (Val (Err e), wf) ->
      StepFails e wf
  | fails_crop img w1 e wf :
      loaded img w1 ->
      crop L img 1000 1000 w1 = (Val (Err e), wf) ->
      StepFails e wf
  | fails_save_cropped sub w2 e wf :
      cropped sub w2 ->
      saveImage L sub "." "cropped.jpg" w2 = (Val (Some e), wf) ->
      StepFails e wf
  | fails_reload w3 e wf :
      saved_cropped w3 ->
      openImage L "cropped.jpg" w3 = (Val (Err e), wf) ->
      StepFails e wf
  | fails_save_saturated img sat w5 e wf :
      saturated img sat w5 ->
      saveImage L sat "." "saturated.jpg" w5 = (Val (Some e), wf) ->
      StepFails e wf
  | fails_save_multiplied sat mult w7 e wf :
      multiplied sat mult w7 ->
      saveImage L mult "." "multiplied.jpg" w7 = (Val (Some e), wf) ->
      StepFails e wf
  | fails_save_sharpened sat shrp w9 e wf :
      sharpened sat shrp w9 ->
      saveImage L shrp "." "sharpened.jpg" w9 = (Val (Some e), wf) ->
      StepFails e wf
  | fails_save_primitive pri w11 e wf :
      approximated pri w11 ->
      saveImage L pri "." "primitive.jpg" w11 = (Val (Some e), wf) ->
      StepFails e wf.

End Stages.

(* ================================================================== *)
(** * Concrete libraries and worlds, for running the program *)

Module demo.

Definition rect (x0 y0 x1 y1 : Z) : Rectangle :=
  Rectangle_ (Pt x0 y0) (Pt x1 y1).

(** A gray image of [w] by [h] pixels at the origin. *)
Definition gray (w h : Z) (pix : list Z) : ImageData :=
  ImgPix Gray pix w (rect 0 0 w h).

(** The rows of a gray image, without the padding of the stride. *)
Definition gray_rows (pix : list Z) (stride : Z) (r : Rectangle) : list Z :=
  flat_map
    (fun y => take (Z.to_nat (X (Max r) - X (Min r)))
                   (drop (Z.to_nat (Z.of_nat y * stride)) pix))
    (seq 0 (Z.to_nat (Y (Max r) - Y (Min r)))).

Definition map_gray (f : Z -> Z) (d : ImageData) : ImageData :=
  match d with
  | ImgPix Gray pix stride r =>
      gray (X (Max r) - X (Min r)) (Y (Max r) - Y (Min r))
           (map f (gray_rows pix stride r))
  | _ => d
  end.

(** A toy codec: width, height, then one byte per pixel. *)
Definition decode (bytes : list Z) : result ImageData :=
  match bytes with
  | w :: h :: pix =>
      if Z.of_nat (length pix) =? w * h then Ok (gray w h pix)
      else Err (errors.New "unexpected EOF")
  | _ => Err (errors.New "unexpected EOF")
  end.

Definition encode (d : ImageData) (quality : Z) : list Z * option error :=
  match d with
  | ImgPix Gray pix stride r =>
      ((X (Max r) - X (Min r)) :: (Y (Max r) - Y (Min r)) :: gray_rows pix stride r,
       None)
  | _ => ([], Some (errors.New "unsupported image type"))
  end.

(** A detector that proposes the square at the right edge of the image. *)
Definition square_crop (d : ImageData) (width height : Z) : result Rectangle :=
  let b := Bounds d in
  let side := Z.min (X (Max b) - X (Min b)) (Y (Max b) - Y (Min b)) in
  Ok (rect (X (Max b) - side) (Y (Min b)) (X (Max b)) (Y (Min b) + side)).

(** A detector that proposes the requested size at the origin, whatever
    the size of the image. *)
Definition requested_crop (d : ImageData) (width height : Z) : result Rectangle :=
  Ok (rect 0 0 width height).

(** A shape-fitting engine: the model is the background and the shapes
    drawn so far, and each shape is drawn from the random source. *)
Definition next_random (s : Z) : Z := (s * 1103515245 + 12345) mod 2 ^ 31.

Definition libs : Libs := {|
  open_refused := fun _ => None;
  create_refused := fun _ => None;
  decode_jpeg := decode;
  encode_jpeg := encode;
  find_crop := square_crop;
  saturation := fun d _ => map_gray (fun b => Z.min 255 (b + b / 2)) d;
  multiply_blend := fun bg fg => map_gray (fun b => b * b / 255) bg;
  unsharp_mask := fun d _ _ => map_gray (fun b => b) d;
  resize := fun d _ _ _ => map_gray (fun b => b) d;
  average_color := fun d =>
    match d with ImgPix _ (b :: _) _ _ => [b; b; b; 255] | _ => [0; 0; 0; 255] end;
  make_color := fun c => c;
  Model := (Color * list Z)%type;
  new_model := fun _ bg _ _ s => ((bg, []), s);
  step := fun m _ _ _ s => ((fst m, snd m ++ [s mod 256]), next_random s);
  context_image := fun m =>
    gray (Z.of_nat (length (fst m ++ snd m))) 1 (fst m ++ snd m);
  num_cpu := 4
|}.



(** The same libraries with the detector that does not look at the size
    of the image. *)
Definition libs_requested : Libs := {|
  open_refused := open_refused libs;
  create_refused := create_refused libs;
  decode_jpeg := decode_jpeg libs;
  encode_jpeg := encode_jpeg libs;
  find_crop := requested_crop;
  saturation := saturation libs;
  multiply_blend := multiply_blend libs;
  unsharp_mask := unsharp_mask libs;
  resize := resize libs;
  average_color := average_color libs;
  make_color := make_color libs;
  Model := Model libs;
  new_model := new_model libs;
  step := step libs;
  context_image := context_image libs;
  num_cpu := num_cpu libs
|}.

(** The same libraries with an encoder that stops after the two bytes
    of the start-of-image marker. *)
Definition libs_short_write : Libs := {|
  open_refused := open_refused libs;
  create_refused := create_refused libs;
  decode_jpeg := decode_jpeg libs;
  encode_jpeg := fun _ _ => ([255; 216], Some (errors.New "short write"));
  find_crop := find_crop libs;
  saturation := saturation libs;
  multiply_blend := multiply_blend libs;
  unsharp_mask := unsharp_mask libs;
  resize := resize libs;
  average_color := average_color libs;
  make_color := make_color libs;
  Model := Model libs;
  new_model := new_model libs;
  step := step libs;
  context_image := context_image libs;
  num_cpu := num_cpu libs
|}.

(** The same libraries on a system that refuses to create
    [saturated.jpg]. *)
Definition libs_refused : Libs := {|
  open_refused := open_refused libs;
  create_refused := fun name =>
    if String.eqb name "saturated.jpg"
    then Some (errors.New "open saturated.jpg: permission denied")
    else None;
  decode_jpeg := decode_jpeg libs;
  encode_jpeg := encode_jpeg libs;
  find_crop := find_crop libs;
  saturation := saturation libs;
  multiply_blend := multiply_blend libs;
  unsharp_mask := unsharp_mask libs;
  resize := resize libs;
  average_color := average_color libs;
  make_color := make_color libs;
  Model := Model libs;
  new_model := new_model libs;
  step := step libs;
  context_image := context_image libs;
  num_cpu := num_cpu libs
|}.

(** A world with a 3 by 2 picture in [original.jpg] and a stale
    [cropped.jpg] left by an earlier run. *)
Definition world : World := {|
  heap := [];
  fs := <["cropped.jpg" := [9; 9; 9]]> (<["original.jpg" := [3; 2; 10; 20; 30; 40; 50; 60]]> ∅);
  now := 1482364800000000000;
  rng := 1;
  trace := []
|}.

(** A 3 by 2 gray picture in memory, and the heap that holds it. *)
Definition picture : Image := ImgPix Gray (Slice (Some 0%nat) 0 6) 3 (rect 0 0 3 2).
Definition picture_heap : Heap := [[10; 20; 30; 40; 50; 60]].
Definition picture_world : World := {|
  heap := picture_heap;
  fs := ∅;
  now := 0;
  rng := 0;
  trace := []
|}.

(** A world without [original.jpg]. *)
Definition world_empty : World := {|
  heap := [];
  fs := ∅;
  now := 0;
  rng := 0;
  trace := []
|}.

(** A world whose [original.jpg] is not a picture. *)
Definition world_garbled : World := {|
  heap := [];
  fs := <["original.jpg" := [3; 2; 10]]> ∅;
  now := 0;
  rng := 0;
  trace := []
|}.

(** The world of the picture a moment later. *)
Definition picture_world_later : World := {|
  heap := picture_heap;
  fs := ∅;
  now := 1;
  rng := 0;
  trace := []
|}.

(** The world of the picture with an older [out/a.jpg] in it. *)
Definition picture_world_stale : World := {|
  heap := picture_heap;
  fs := <["out/a.jpg" := [7; 7; 7; 7; 7; 7; 7; 7; 7]]> ∅;
  now := 0;
  rng := 0;
  trace := []
|}.


(** An image of a single colour: it has bounds and pixels but no
    [SubImage] method. *)
Definition plain : Image := ImgUniform [255; 255; 255; 255].

End demo.

(* ================================================================== *)
(** * Integers, slices and the heap *)

Lemma wrap_id (z : Z) : is_int z -> wrap z = z.
Proof.
  unfold is_int, int_min, int_max, wrap. intros Hz.
  rewrite Z.mod_small by lia. lia.
Qed.

Lemma is_int_quot (z d : Z) : is_int z -> 0 < d -> is_int (Z.quot z d).
Proof.
  unfold is_int, int_min, int_max. intros Hz Hd.
  destruct (Z.le_gt_cases 0 z) as [Hpos | Hneg].
  - pose proof (Z.quot_pos z d Hpos Hd).
    pose proof (Z.quot_le_upper_bound z d z Hd).
    assert (z ÷ d <= z) by (apply Z.quot_le_upper_bound; nia). lia.
  - assert (Hq : - z ÷ d = - (z ÷ d)) by (apply Z.quot_opp_l; lia).
    assert (0 <= - z ÷ d) by (apply Z.quot_pos; lia).
    assert (- z ÷ d <= - z) by (apply Z.quot_le_upper_bound; nia). lia.
Qed.

Lemma int_div_exact (z d : Z) : is_int z -> 0 < d -> int_div z d = Z.quot z d.
Proof. intros Hz Hd. unfold int_div. apply wrap_id. by apply is_int_quot. Qed.

Lemma quot_mono (a b d : Z) : 0 < d -> a <= b -> Z.quot a d <= Z.quot b d.
Proof. intros Hd Hab. by apply Z.quot_le_mono. Qed.

(** The offset of a sample in a plane that fits its slice is computed
    without overflow and addresses [k] bytes inside the slice. *)
Lemma plane_offset_exact (rows cols k st n a b : Z) :
  plane_fits rows cols k st n -> 1 <= k ->
  0 <= a < rows -> 0 <= b < cols ->
  int_add (int_mul (wrap a) st) (int_mul (wrap b) k) = a * st + b * k /\
  0 <= a * st + b * k /\ a * st + b * k + k <= n.
Proof.
  intros (Hst & Hn & Hrow & Hlast) Hk Ha Hb.
  assert (Hst1 : 1 <= st) by nia.
  assert (Hast : a * st <= (rows - 1) * st) by nia.
  assert (Hbk : b * k + k <= cols * k) by nia.
  assert (0 <= a * st) by nia.
  assert (0 <= b * k) by nia.
  assert (Ha' : is_int a) by (unfold is_int, int_min, int_max in *; nia).
  assert (Hb' : is_int b) by (unfold is_int, int_min, int_max in *; nia).
  unfold int_add, int_mul. rewrite (wrap_id a), (wrap_id b) by done.
  rewrite (wrap_id (a * st)), (wrap_id (b * k))
    by (unfold is_int, int_min, int_max in *; lia).
  rewrite wrap_id by (unfold is_int, int_min, int_max in *; lia).
  lia.
Qed.

Lemma slice_from_spec (s : slice) (i : Z) :
  0 <= i <= len s ->
  slice_from s i = Some (Slice (arr s) (off s + i) (len s - i)).
Proof.
  intros Hi. unfold slice_from.
  destruct (Z.leb_spec 0 i), (Z.leb_spec i (len s)); simpl; (done || lia).
Qed.

Lemma byte_at_shift (h : Heap) (s : slice) (i0 i : Z) :
  byte_at h (Slice (arr s) (off s + i0) (len s - i0)) i = byte_at h s (i0 + i).
Proof. unfold byte_at. simpl. by rewrite Z.add_assoc. Qed.

(** Reading through [s[i0:]] is reading [i0] places further in [s]:
    same bytes, same bounds check. *)
Lemma slice_read_shift (h : Heap) (s : slice) (i0 i : Z) (k : nat) :
  0 <= i0 -> 0 <= i ->
  slice_read h (Slice (arr s) (off s + i0) (len s - i0)) i k =
  slice_read h s (i0 + i) k.
Proof.
  intros Hi0 Hi. unfold slice_read. simpl.
  replace (0 <=? i0 + i) with true by (symmetry; apply Z.leb_le; lia).
  replace (0 <=? i) with true by (symmetry; apply Z.leb_le; lia).
  replace (i + Z.of_nat k <=? len s - i0) with (i0 + i + Z.of_nat k <=? len s)
    by (destruct (Z.leb_spec (i0 + i + Z.of_nat k) (len s)),
                 (Z.leb_spec (i + Z.of_nat k) (len s - i0)); (done || lia)).
  simpl. destruct (i0 + i + Z.of_nat k <=? len s); [| done].
  f_equal. unfold bytes_at. apply map_ext. intros j.
  rewrite byte_at_shift. f_equal. lia.
Qed.

Lemma map_nth_seq {A : Type} (l : list A) (d : A) :
  map (fun j => nth j l d) (seq 0 (length l)) = l.
Proof.
  induction l as [| x l IH]; [done |].
  simpl. f_equal. rewrite <- seq_shift, map_map. exact IH.
Qed.

(** A backing array, once allocated, reads back as it was filled, also
    after later allocations. *)
Lemma resolve_alloc (data : list Z) (h rest : Heap) :
  resolve (h ++ [data] ++ rest) (fst (alloc data h)) = data.
Proof.
  unfold resolve, bytes_at, byte_at. simpl.
  rewrite Nat2Z.id.
  rewrite <- (map_nth_seq data 0) at 2.
  apply map_ext. intros j. unfold Heap in *.
  rewrite list_lookup_middle by done. f_equal. lia.
Qed.

Lemma resolve_at (h : Heap) (a : nat) (data : list Z) (rest : Heap) :
  a = length h ->
  resolve (h ++ data :: rest) (Slice (Some a) 0 (Z.of_nat (length data))) = data.
Proof. intros ->. apply (resolve_alloc data h rest). Qed.


Lemma wrap_is_int (z : Z) : is_int (wrap z).
Proof.
  unfold is_int, int_min, int_max, wrap.
  pose proof (Z.mod_pos_bound (z + 2 ^ 63) (2 ^ 64)). lia.
Qed.

(** The same for a plane of single bytes, whose offset the library
    computes without the multiplication by the sample size. *)
Lemma plane_offset_exact1 (rows cols st n a b : Z) :
  plane_fits rows cols 1 st n ->
  0 <= a < rows -> 0 <= b < cols ->
  int_add (int_mul (wrap a) st) (wrap b) = a * st + b /\
  0 <= a * st + b /\ a * st + b + 1 <= n.
Proof.
  intros Hfit Ha Hb.
  destruct (plane_offset_exact rows cols 1 st n a b) as (Heq & Hlo & Hhi);
    [done | lia | done | done |].
  unfold int_mul at 2 in Heq.
  rewrite Z.mul_1_r, (wrap_id (wrap b)) in Heq by apply wrap_is_int.
  rewrite Heq. lia.
Qed.

(** The part of a plane below and to the right of one of its samples
    fits what is left of the slice from that sample on. *)
Lemma plane_fits_sub (rows cols k st n a0 b0 rows' cols' : Z) :
  plane_fits rows cols k st n -> 1 <= k ->
  0 <= a0 -> 0 <= b0 -> 1 <= rows' -> 1 <= cols' ->
  a0 + rows' <= rows -> b0 + cols' <= cols ->
  plane_fits rows' cols' k st (n - (a0 * st + b0 * k)).
Proof.
  intros (Hst & Hn & Hrow & Hlast) Hk Ha0 Hb0 Hr Hc Hrows Hcols.
  unfold plane_fits. repeat split; try lia; try nia.
Qed.

Lemma plane_fits_sub1 (rows cols st n a0 b0 rows' cols' : Z) :
  plane_fits rows cols 1 st n ->
  0 <= a0 -> 0 <= b0 -> 1 <= rows' -> 1 <= cols' ->
  a0 + rows' <= rows -> b0 + cols' <= cols ->
  plane_fits rows' cols' 1 st (n - (a0 * st + b0)).
Proof.
  intros Hfit Ha0 Hb0 Hr Hc Hrows Hcols.
  replace (a0 * st + b0) with (a0 * st + b0 * 1) by lia.
  eapply plane_fits_sub; eauto; lia.
Qed.

(* ================================================================== *)
(** * Rectangles *)

Ltac zcompare :=
  rewrite ?Z.gtb_ltb, ?Z.geb_leb in *;
  repeat match goal with
    | H : context [?a <? ?b] |- _ => destruct (Z.ltb_spec a b); simpl in H
    | H : context [?a <=? ?b] |- _ => destruct (Z.leb_spec a b); simpl in H
    | |- context [?a <? ?b] => destruct (Z.ltb_spec a b); simpl
    | |- context [?a <=? ?b] => destruct (Z.leb_spec a b); simpl
    end.

Lemma Empty_false (r : Rectangle) :
  Empty r = false <-> X (Min r) < X (Max r) /\ Y (Min r) < Y (Max r).
Proof. unfold Empty. split; intros H; zcompare; (done || lia). Qed.

Lemma PointIn_true (x y : Z) (r : Rectangle) :
  PointIn x y r = true <->
  X (Min r) <= x < X (Max r) /\ Y (Min r) <= y < Y (Max r).
Proof. unfold PointIn. split; intros H; zcompare; (done || lia). Qed.

Lemma Empty_ZR : Empty ZR = true.
Proof. done. Qed.

(** [Intersect] yields the zero rectangle, or the non-empty rectangle
    between the larger minima and the smaller maxima. *)
Lemma Intersect_cases (r s : Rectangle) :
  (Intersect r s = ZR /\
   (Z.max (X (Min r)) (X (Min s)) >= Z.min (X (Max r)) (X (Max s)) \/
    Z.max (Y (Min r)) (Y (Min s)) >= Z.min (Y (Max r)) (Y (Max s)))) \/
  (Empty (Intersect r s) = false /\
   X (Min (Intersect r s)) = Z.max (X (Min r)) (X (Min s)) /\
   Y (Min (Intersect r s)) = Z.max (Y (Min r)) (Y (Min s)) /\
   X (Max (Intersect r s)) = Z.min (X (Max r)) (X (Max s)) /\
   Y (Max (Intersect r s)) = Z.min (Y (Max r)) (Y (Max s))).
Proof.
  destruct r as [[rx0 ry0] [rx1 ry1]], s as [[sx0 sy0] [sx1 sy1]].
  unfold Intersect, Empty. simpl.
  zcompare; first [ left; split; [done | lia] | right; repeat split; lia ].
Qed.

Lemma Intersect_empty (r s : Rectangle) :
  Empty (Intersect r s) = true -> Intersect r s = ZR.
Proof.
  destruct (Intersect_cases r s) as [[HZ _] | [Hne _]]; [done | congruence].
Qed.

(** A non-empty rectangle inside [s] is its own intersection with [s]. *)
Lemma Intersect_inside (r s : Rectangle) :
  Empty r = false -> RectIn r s = true -> Intersect r s = r.
Proof.
  destruct r as [[rx0 ry0] [rx1 ry1]], s as [[sx0 sy0] [sx1 sy1]].
  unfold RectIn, Intersect, Empty. simpl. intros He Hin.
  zcompare; try discriminate; try lia; done.
Qed.

(** Only a rectangle inside [s] can be its own intersection with [s]. *)
Lemma Intersect_fixed (r s : Rectangle) :
  Intersect r s = r -> RectIn r s = true.
Proof.
  destruct (Intersect_cases r s) as [[HZ _] | (Hne & Hx0 & Hy0 & Hx1 & Hy1)];
    intros Heq.
  - rewrite <- Heq, HZ. done.
  - rewrite Heq in *. apply Empty_false in Hne.
    unfold RectIn. destruct (Empty r); [done |]. zcompare; (done || lia).
Qed.

Lemma rect_is_int_ZR : rect_is_int ZR.
Proof. unfold rect_is_int, is_int, int_min, int_max. simpl. lia. Qed.

Lemma Intersect_is_int (r s : Rectangle) :
  rect_is_int s -> rect_is_int (Intersect r s).
Proof.
  intros (H1 & H2 & H3 & H4).
  destruct (Intersect_cases r s) as [[HZ _] | (Hne & Hx0 & Hy0 & Hx1 & Hy1)].
  - rewrite HZ. unfold rect_is_int, is_int, int_min, int_max. simpl. lia.
  - apply Empty_false in Hne. unfold rect_is_int, is_int in *. lia.
Qed.

(* ================================================================== *)
(** * [SubImage] and [At] *)

Lemma bytes_per_pixel_pos (k : PixKind) : 1 <= Z.of_nat (bytes_per_pixel k).
Proof. destruct k; simpl; lia. Qed.

(** Inside the bounds of a well-formed [Pix] image the pixel offset is
    the mathematical one and the pixel lies inside the slice. *)
Lemma PixOffset_exact (k : PixKind) (Stride : Z) (Rect : Rectangle) (n x y : Z) :
  plane_fits (Y (Max Rect) - Y (Min Rect)) (X (Max Rect) - X (Min Rect))
             (Z.of_nat (bytes_per_pixel k)) Stride n ->
  PointIn x y Rect = true ->
  let i := (y - Y (Min Rect)) * Stride
           + (x - X (Min Rect)) * Z.of_nat (bytes_per_pixel k) in
  PixOffset k Stride Rect x y = i /\
  0 <= i /\ i + Z.of_nat (bytes_per_pixel k) <= n.
Proof.
  intros Hfit Hin. apply PointIn_true in Hin.
  unfold PixOffset, int_sub.
  eapply plane_offset_exact; eauto using bytes_per_pixel_pos; lia.
Qed.

Lemma YOffset_exact (YStride : Z) (Rect : Rectangle) (n x y : Z) :
  plane_fits (Y (Max Rect) - Y (Min Rect)) (X (Max Rect) - X (Min Rect))
             1 YStride n ->
  PointIn x y Rect = true ->
  let i := (y - Y (Min Rect)) * YStride + (x - X (Min Rect)) in
  YOffset YStride Rect x y = i /\ 0 <= i /\ i + 1 <= n.
Proof.
  intros Hfit Hin. apply PointIn_true in Hin.
  unfold YOffset, int_sub.
  eapply plane_offset_exact1; eauto; lia.
Qed.

Lemma chroma_x_mono (ratio : YCbCrSubsampleRatio) (a b : Z) :
  a <= b -> chroma_x ratio a <= chroma_x ratio b.
Proof. intros H. destruct ratio; simpl; try done; apply quot_mono; lia. Qed.

Lemma chroma_y_mono (ratio : YCbCrSubsampleRatio) (a b : Z) :
  a <= b -> chroma_y ratio a <= chroma_y ratio b.
Proof. intros H. destruct ratio; simpl; try done; apply quot_mono; lia. Qed.

(** The library's case analysis on the ratio computes
    [(cy y - cy minY) * CStride + (cx x - cx minX)]. *)
Lemma COffset_unfold (ratio : YCbCrSubsampleRatio) (CStride : Z)
    (Rect : Rectangle) (x y : Z) :
  rect_is_int Rect -> PointIn x y Rect = true ->
  COffset ratio CStride Rect x y =
  int_add (int_mul (wrap (chroma_y ratio y - chroma_y ratio (Y (Min Rect)))) CStride)
          (wrap (chroma_x ratio x - chroma_x ratio (X (Min Rect)))).
Proof.
  intros (H1 & H2 & H3 & H4) Hin. apply PointIn_true in Hin.
  assert (Hx : is_int x) by (unfold is_int in *; lia).
  assert (Hy : is_int y) by (unfold is_int in *; lia).
  unfold COffset, int_sub.
  destruct ratio; simpl; rewrite ?int_div_exact by (done || lia); reflexivity.
Qed.

Lemma COffset_exact (ratio : YCbCrSubsampleRatio) (CStride : Z)
    (Rect : Rectangle) (n x y : Z) :
  rect_is_int Rect ->
  plane_fits
    (chroma_y ratio (Y (Max Rect) - 1) - chroma_y ratio (Y (Min Rect)) + 1)
    (chroma_x ratio (X (Max Rect) - 1) - chroma_x ratio (X (Min Rect)) + 1)
    1 CStride n ->
  PointIn x y Rect = true ->
  let i := (chroma_y ratio y - chroma_y ratio (Y (Min Rect))) * CStride
           + (chroma_x ratio x - chroma_x ratio (X (Min Rect))) in
  COffset ratio CStride Rect x y = i /\ 0 <= i /\ i + 1 <= n.
Proof.
  intros Hint Hfit Hin. rewrite COffset_unfold by done.
  apply PointIn_true in Hin.
  pose proof (chroma_x_mono ratio (X (Min Rect)) x).
  pose proof (chroma_x_mono ratio x (X (Max Rect) - 1)).
  pose proof (chroma_y_mono ratio (Y (Min Rect)) y).
  pose proof (chroma_y_mono ratio y (Y (Max Rect) - 1)).
  eapply plane_offset_exact1; eauto; lia.
Qed.

(** [SubImage] of a well-formed [Pix] image returns the view through
    the rectangle. *)
Lemma Pix_SubImage_view (k : PixKind) (Pix : slice) (Stride : Z)
    (Rect r : Rectangle) :
  wf_image (ImgPix k Pix Stride Rect) ->
  exists sub, Pix_SubImage k Pix Stride Rect r = Some sub /\
              is_view (ImgPix k Pix Stride Rect) r sub.
Proof.
  intros [Hint Hfit]. unfold Pix_SubImage.
  destruct (Intersect_cases r Rect) as [[HZ _] | (Hne & Hx0 & Hy0 & Hx1 & Hy1)].
  - rewrite HZ, Empty_ZR. eexists. split; [done |].
    unfold is_view, shares_storage. simpl. rewrite HZ.
    split; [done |]. split; [split; [apply rect_is_int_ZR | done] |].
    split; [constructor; [by left | constructor] |].
    intros h x y Hin. apply PointIn_true in Hin. simpl in Hin. lia.
  - rewrite Hne. set (r' := Intersect r Rect) in *.
    pose proof Hne as Hne'. apply Empty_false in Hne'.
    assert (HRect : Empty Rect = false) by (apply Empty_false; lia).
    specialize (Hfit HRect).
    assert (Hcorner : PointIn (X (Min r')) (Y (Min r')) Rect = true)
      by (apply PointIn_true; lia).
    destruct (PixOffset_exact k Stride Rect (len Pix) _ _ Hfit Hcorner)
      as (Hoff & Hlo & Hhi).
    pose proof (bytes_per_pixel_pos k) as Hk.
    rewrite Hoff, slice_from_spec by lia.
    eexists. split; [done |].
    assert (Hfit' : plane_fits (Y (Max r') - Y (Min r')) (X (Max r') - X (Min r'))
                     (Z.of_nat (bytes_per_pixel k)) Stride
                     (len Pix - ((Y (Min r') - Y (Min Rect)) * Stride
                                 + (X (Min r') - X (Min Rect)) * Z.of_nat (bytes_per_pixel k))))
      by (apply plane_fits_sub with (rows := Y (Max Rect) - Y (Min Rect))
                                    (cols := X (Max Rect) - X (Min Rect)); (done || lia)).
    unfold is_view, shares_storage. simpl.
    split; [done |].
    split; [split; [by apply Intersect_is_int | intros _; apply Hfit'] |].
    split; [constructor; [right; simpl; split; [done | lia] | constructor] |].
    intros h x y Hin. pose proof Hin as Hin'. apply PointIn_true in Hin'.
    assert (HinR : PointIn x y Rect = true) by (apply PointIn_true; lia).
    rewrite Hin, HinR. simpl.
    destruct (PixOffset_exact k Stride r' _ x y Hfit' Hin) as (Ho' & Hlo' & _).
    destruct (PixOffset_exact k Stride Rect _ x y Hfit HinR) as (Ho & _ & _).
    rewrite Ho', Ho, slice_read_shift by lia. f_equal. lia.
Qed.

(** [SubImage] of a well-formed [YCbCr] image returns the view through
    the rectangle: the three planes are cut at the matching samples. *)
Lemma YCbCr_SubImage_view (Ys Cb Cr : slice) (YStride CStride : Z)
    (ratio : YCbCrSubsampleRatio) (Rect r : Rectangle) :
  wf_image (ImgYCbCr Ys Cb Cr YStride CStride ratio Rect) ->
  exists sub, YCbCr_SubImage Ys Cb Cr YStride CStride ratio Rect r = Some sub /\
              is_view (ImgYCbCr Ys Cb Cr YStride CStride ratio Rect) r sub.
Proof.
  intros [Hint Hfit]. unfold YCbCr_SubImage.
  destruct (Intersect_cases r Rect) as [[HZ _] | (Hne & Hx0 & Hy0 & Hx1 & Hy1)].
  - rewrite HZ, Empty_ZR. eexists. split; [done |].
    unfold is_view, shares_storage. simpl. rewrite HZ.
    split; [done |]. split; [split; [apply rect_is_int_ZR | done] |].
    split; [repeat (constructor; [by left |]); constructor |].
    intros h x y Hin. apply PointIn_true in Hin. simpl in Hin. lia.
  - rewrite Hne. set (r' := Intersect r Rect) in *.
    pose proof Hne as Hne'. apply Empty_false in Hne'.
    assert (HRect : Empty Rect = false) by (apply Empty_false; lia).
    destruct (Hfit HRect) as (HfitY & HfitCb & HfitCr). clear Hfit.
    assert (Hint' : rect_is_int r') by (by apply Intersect_is_int).
    assert (Hcorner : PointIn (X (Min r')) (Y (Min r')) Rect = true)
      by (apply PointIn_true; lia).
    destruct (YOffset_exact YStride Rect (len Ys) _ _ HfitY Hcorner)
      as (HoffY & HloY & HhiY).
    destruct (COffset_exact ratio CStride Rect (len Cb) _ _ Hint HfitCb Hcorner)
      as (HoffC & HloC & HhiCb).
    destruct (COffset_exact ratio CStride Rect (len Cr) _ _ Hint HfitCr Hcorner)
      as (_ & _ & HhiCr).
    rewrite HoffY, HoffC, !slice_from_spec by lia.
    eexists. split; [done |].
    pose proof (chroma_x_mono ratio (X (Min Rect)) (X (Min r'))) as Hcx0.
    pose proof (chroma_x_mono ratio (X (Min r')) (X (Max r') - 1)) as Hcx1.
    pose proof (chroma_x_mono ratio (X (Max r') - 1) (X (Max Rect) - 1)) as Hcx2.
    pose proof (chroma_y_mono ratio (Y (Min Rect)) (Y (Min r'))) as Hcy0.
    pose proof (chroma_y_mono ratio (Y (Min r')) (Y (Max r') - 1)) as Hcy1.
    pose proof (chroma_y_mono ratio (Y (Max r') - 1) (Y (Max Rect) - 1)) as Hcy2.
    assert (HfitY' : plane_fits (Y (Max r') - Y (Min r')) (X (Max r') - X (Min r'))
                      1 YStride
                      (len Ys - ((Y (Min r') - Y (Min Rect)) * YStride
                                 + (X (Min r') - X (Min Rect))))).
    { apply plane_fits_sub1 with (rows := Y (Max Rect) - Y (Min Rect))
                                 (cols := X (Max Rect) - X (Min Rect)); (done || lia). }
    assert (HfitC' : forall n,
      plane_fits
        (chroma_y ratio (Y (Max Rect) - 1) - chroma_y ratio (Y (Min Rect)) + 1)
        (chroma_x ratio (X (Max Rect) - 1) - chroma_x ratio (X (Min Rect)) + 1)
        1 CStride n ->
      plane_fits
        (chroma_y ratio (Y (Max r') - 1) - chroma_y ratio (Y (Min r')) + 1)
        (chroma_x ratio (X (Max r') - 1) - chroma_x ratio (X (Min r')) + 1)
        1 CStride
        (n - ((chroma_y ratio (Y (Min r')) - chroma_y ratio (Y (Min Rect))) * CStride
              + (chroma_x ratio (X (Min r')) - chroma_x ratio (X (Min Rect)))))).
    { intros n Hn. eapply plane_fits_sub1; [exact Hn | lia ..]. }
    unfold is_view, shares_storage. simpl.
    split; [done |].
    split; [split; [done | intros _; auto] |].
    split; [repeat (constructor; [right; simpl; split; [done | lia] |]); constructor |].
    intros h x y Hin. pose proof Hin as Hin'. apply PointIn_true in Hin'.
    assert (HinR : PointIn x y Rect = true) by (apply PointIn_true; lia).
    rewrite Hin, HinR. simpl.
    destruct (YOffset_exact YStride r' _ x y HfitY' Hin) as (HoY' & HloY' & _).
    destruct (YOffset_exact YStride Rect _ x y HfitY HinR) as (HoY & _ & _).
    destruct (COffset_exact ratio CStride r' _ x y Hint' (HfitC' _ HfitCb) Hin)
      as (HoC' & HloC' & _).
    destruct (COffset_exact ratio CStride Rect _ x y Hint HfitCb HinR) as (HoC & _ & _).
    rewrite HoY', HoY, HoC', HoC, !slice_read_shift by lia.
    replace ((Y (Min r') - Y (Min Rect)) * YStride + (X (Min r') - X (Min Rect)) +
             ((y - Y (Min r')) * YStride + (x - X (Min r'))))
      with ((y - Y (Min Rect)) * YStride + (x - X (Min Rect))) by lia.
    replace ((chroma_y ratio (Y (Min r')) - chroma_y ratio (Y (Min Rect))) * CStride +
             (chroma_x ratio (X (Min r')) - chroma_x ratio (X (Min Rect))) +
             ((chroma_y ratio y - chroma_y ratio (Y (Min r'))) * CStride +
              (chroma_x ratio x - chroma_x ratio (X (Min r')))))
      with ((chroma_y ratio y - chroma_y ratio (Y (Min Rect))) * CStride +
            (chroma_x ratio x - chroma_x ratio (X (Min Rect)))) by lia.
    reflexivity.
Qed.

(** The [SubImage] method behind a successful type assertion, called
    on a well-formed image, returns the view through the rectangle. *)
Lemma SubImage_view (img : Image) (si : SubImager) (r : Rectangle) :
  assert_SubImager img = Some si -> wf_image img ->
  receiver si = img /\
  exists sub, SubImage si r = Some sub /\ is_view img r sub.
Proof.
  intros Hsi Hwf. destruct img; simpl in Hsi; inversion Hsi; subst; simpl.
  - split; [done |]. by apply Pix_SubImage_view.
  - split; [done |]. by apply YCbCr_SubImage_view.
Qed.

(* ================================================================== *)
(** * Images in the heap *)

Lemma resolve_stable (h rest : Heap) (s : slice) (a : nat) :
  arr s = Some a -> (a < length h)%nat -> resolve (h ++ rest) s = resolve h s.
Proof.
  intros Ha Hlt. unfold resolve, bytes_at, byte_at. rewrite Ha.
  unfold Heap in *. by rewrite lookup_app_l.
Qed.

Lemma resolve_nil_arr (h h' : Heap) (s : slice) :
  arr s = None -> resolve h s = resolve h' s.
Proof. intros Ha. unfold resolve, bytes_at, byte_at. by rewrite Ha. Qed.

(** Allocation elsewhere does not change what an allocated image holds. *)
Lemma load_stable (h rest : Heap) (img : Image) :
  allocated h img -> load (h ++ rest) img = load h img.
Proof.
  intros Hal.
  assert (Hs : forall s, s ∈ planes img -> resolve (h ++ rest) s = resolve h s).
  { intros s Hs. destruct (arr s) as [a |] eqn:Ha.
    - eapply resolve_stable; eauto.
    - by apply resolve_nil_arr. }
  destruct img; simpl in *; rewrite ?Hs; set_solver.
Qed.

Lemma allocated_grow (h rest : Heap) (img : Image) :
  allocated h img -> allocated (h ++ rest) img.
Proof.
  intros Hal s a Hs Ha. rewrite length_app. specialize (Hal s a Hs Ha). lia.
Qed.

(** [new_image] always returns: the image lies in fresh backing arrays
    appended to the heap, and reads back as the data it was built from. *)
Lemma new_image_total (d : ImageData) (w : World) :
  exists img,
    new_image d w = (Val img, set_heap (heap w ++ planes d) w) /\
    allocated (heap w ++ planes d) img /\
    fresh_from (length (heap w)) img /\
    forall rest, load ((heap w ++ planes d) ++ rest) img = d.
Proof.
  destruct d as [k p st r | y cb cr ys cs ratio r | c]; simpl.
  - eexists. split; [reflexivity |]. split; [| split].
    + intros s a Hs Ha. apply list_elem_of_singleton in Hs. subst s.
      simpl in Ha. inversion Ha. rewrite length_app. simpl. lia.
    + intros s Hs. apply list_elem_of_singleton in Hs. subst s.
      eexists. split; [reflexivity | lia].
    + intros rest. simpl. f_equal. rewrite <- app_assoc.
      apply (resolve_alloc p (heap w) rest).
  - eexists. split; [by rewrite <- !app_assoc |]. split; [| split].
    + intros s a Hs Ha. rewrite length_app. simpl in *.
      rewrite !length_app in Hs. simpl in Hs.
      set_unfold in Hs. destruct Hs as [Hs | [Hs | [Hs | []]]]; subst s;
        simpl in Ha; inversion Ha; lia.
    + intros s Hs. simpl in Hs. rewrite !length_app in Hs. simpl in Hs.
      set_unfold in Hs.
      destruct Hs as [Hs | [Hs | [Hs | []]]]; subst s; eexists;
        (split; [reflexivity | lia]).
    + intros rest. simpl. f_equal.
      * replace ((heap w ++ [y; cb; cr]) ++ rest)
          with (heap w ++ y :: ([cb; cr] ++ rest)) by (by rewrite <- !app_assoc).
        by apply resolve_at.
      * replace ((heap w ++ [y; cb; cr]) ++ rest)
          with ((heap w ++ [y]) ++ cb :: ([cr] ++ rest)) by (by rewrite <- !app_assoc).
        apply resolve_at. rewrite length_app. simpl. lia.
      * replace ((heap w ++ [y; cb; cr]) ++ rest)
          with ((heap w ++ [y; cb]) ++ cr :: rest) by (by rewrite <- !app_assoc).
        apply resolve_at. rewrite length_app. simpl. lia.
  - eexists. split; [| split; [| split]].
    + rewrite app_nil_r. by destruct w.
    + intros s a Hs. set_solver.
    + intros s Hs. set_solver.
    + done.
Qed.

Lemma slice_from_arr (s s' : slice) (i : Z) :
  slice_from s i = Some s' -> arr s' = arr s.
Proof.
  unfold slice_from. destruct ((0 <=? i) && (i <=? len s)); [| done].
  intros H. by inversion H.
Qed.

(** Whatever the image, the slices of a sub-image are nil or windows
    on the backing arrays of the image. *)
Lemma SubImage_arrays (img : Image) (si : SubImager) (r : Rectangle) (sub : Image) :
  assert_SubImager img = Some si -> SubImage si r = Some sub ->
  forall s, s ∈ planes sub ->
    arr s = None \/ exists s', s' ∈ planes img /\ arr s = arr s'.
Proof.
  intros Hsi Hsub s Hs.
  destruct img as [k p st rc | y cb cr ys cs ratio rc | c];
    simpl in Hsi; inversion Hsi; subst si; simpl in Hsub.
  - unfold Pix_SubImage in Hsub.
    destruct (Empty (Intersect r rc)).
    + inversion Hsub; subst sub. set_unfold in Hs.
      destruct Hs as [-> | []]. by left.
    + destruct (slice_from p _) as [p' |] eqn:Hp; [| done].
      inversion Hsub; subst sub. set_unfold in Hs.
      destruct Hs as [-> | []]. right. exists p.
      split; [set_solver | by eapply slice_from_arr].
  - unfold YCbCr_SubImage in Hsub.
    destruct (Empty (Intersect r rc)).
    + inversion Hsub; subst sub. set_unfold in Hs.
      destruct Hs as [-> | [-> | [-> | []]]]; by left.
    + destruct (slice_from y _) as [y' |] eqn:Hy; [| done].
      destruct (slice_from cb _) as [cb' |] eqn:Hcb; [| done].
      destruct (slice_from cr _) as [cr' |] eqn:Hcr; [| done].
      inversion Hsub; subst sub. set_unfold in Hs.
      destruct Hs as [-> | [-> | [-> | []]]]; right.
      * exists y. split; [set_solver | by eapply slice_from_arr].
      * exists cb. split; [set_solver | by eapply slice_from_arr].
      * exists cr. split; [set_solver | by eapply slice_from_arr].
Qed.

Lemma SubImage_allocated (h : Heap) (img : Image) (si : SubImager)
    (r : Rectangle) (sub : Image) :
  assert_SubImager img = Some si -> SubImage si r = Some sub ->
  allocated h img -> allocated h sub.
Proof.
  intros Hsi Hsub Hal s a Hs Ha.
  destruct (SubImage_arrays img si r sub Hsi Hsub s Hs) as [Hn | (s' & Hs' & Heq)].
  - congruence.
  - apply (Hal s' a Hs'). congruence.
Qed.

(** An image in arrays allocated later shares nothing with an image
    allocated before. *)
Lemma fresh_separate (h : Heap) (a b : Image) :
  fresh_from (length h) a -> allocated h b -> separate_storage a b.
Proof.
  intros Hf Hal s s' Hs Hs' Heq.
  destruct (Hf s Hs) as (n & Hn & Hge).
  assert (Hlt : (n < length h)%nat) by (apply (Hal s' n Hs'); congruence).
  lia.
Qed.

(* ================================================================== *)
(** * What each function of the program does *)

Ltac world_simpl :=
  unfold set_heap, set_fs, set_rng, log_event in *; simpl in *;
  rewrite <- ?app_assoc in *; simpl in *.

Section Functions.

Variable L : Libs.

Lemma bind_inv {A B : Type} (m : M A) (k : A -> M B) (w w' : World) (b : B) :
  bind m k w = (Val b, w') ->
  exists a w1, m w = (Val a, w1) /\ k a w1 = (Val b, w').
Proof.
  unfold bind. destruct (m w) as [[a | c |] w1]; intros H; try discriminate.
  by exists a, w1.
Qed.

Lemma bind_val {A B : Type} (m : M A) (k : A -> M B) (w w1 : World) (a : A) :
  m w = (Val a, w1) -> bind m k w = k a w1.
Proof. intros H. unfold bind. by rewrite H. Qed.

(** [openImage] on success: the file exists, decodes, and the image
    lies in fresh arrays holding the decoded data. *)
Lemma openImage_ok (p : string) (w w' : World) (img : Image) :
  openImage L p w = (Val (Ok img), w') ->
  exists data d,
    fs w !! p = Some data /\ decode_jpeg L data = Ok d /\
    w' = mkWorld (heap w ++ planes d) (fs w) (now w) (rng w)
                 (trace w ++ [EvOpen p; EvDecode p]) /\
    allocated (heap w') img /\ fresh_from (length (heap w)) img /\
    forall rest, load (heap w' ++ rest) img = d.
Proof.
  unfold openImage, bind, os_Open, jpeg_Decode, ret. simpl.
  destruct (open_refused L p); [discriminate |].
  destruct (fs w !! p) as [data |] eqn:Hfs; [| discriminate]. simpl.
  rewrite Hfs. simpl.
  destruct (decode_jpeg L data) as [d | e] eqn:Hd; [| discriminate].
  destruct (new_image_total d (log_event (EvDecode p) (log_event (EvOpen p) w)))
    as (img0 & Hnew & Hal & Hfr & Hload).
  rewrite Hnew. intros H. inversion H; subst img0 w'. clear H.
  exists data, d. world_simpl. done.
Qed.

(** [crop] on success: the detector proposed a rectangle, the image
    has a [SubImage] method, and the result is what that method returns;
    nothing but the trace has changed. *)
Lemma crop_ok (img : Image) (width height : Z) (w w' : World) (sub : Image) :
  crop L img width height w = (Val (Ok sub), w') ->
  exists rect si,
    find_crop L (load (heap w) img) width height = Ok rect /\
    assert_SubImager img = Some si /\ SubImage si rect = Some sub /\
    w' = mkWorld (heap w) (fs w) (now w) (rng w)
                 (trace w ++ [EvSmartcrop img width height; EvSubImage img rect]).
Proof.
  unfold crop, bind, smartcrop_Crop, bind, emit, get_heap, ret. simpl.
  destruct (find_crop L (load (heap w) img) width height) as [rect | e] eqn:Hc;
    [| discriminate].
  destruct (assert_SubImager img) as [si |] eqn:Hsi; [| discriminate].
  unfold call_SubImage. simpl.
  destruct (SubImage si rect) as [sub0 |] eqn:Hsub; [| discriminate].
  intros H. inversion H; subst sub0 w'. clear H.
  exists rect, si. repeat split; try done. world_simpl.
  destruct img; simpl in Hsi; inversion Hsi; subst si; done.
Qed.

(** [saveImage] in full: the outcome is decided by whether the file can
    be created and whether the encoder fails; once created, the file
    holds exactly what the encoder wrote. *)
Lemma saveImage_eq (img : Image) (pname fname : string) (w : World) :
  saveImage L img pname fname w =
  let fpath := path.Join [pname; fname] in
  match create_refused L fpath with
  | Some e =>
      (Val (Some (errors.Wrap e ("Cannot create file: " +:+ fpath))),
       log_event (EvCreate fpath) w)
  | None =>
      let '(written, err) := encode_jpeg L (load (heap w) img) 85 in
      (Val (match err with
            | Some e => Some (errors.Wrap e "Failed to encode the image as JPEG")
            | None => None
            end),
       mkWorld (heap w) (<[fpath := written]> (fs w)) (now w) (rng w)
               (trace w ++ [EvCreate fpath; EvEncode fpath img 85]))
  end.
Proof.
  unfold saveImage, bind, os_Create, jpeg_Encode, ret. simpl.
  destruct (create_refused L _); [done |]. simpl.
  destruct (encode_jpeg L (load (heap w) img) 85) as [written err].
  world_simpl. rewrite lookup_insert_eq, insert_insert_eq. simpl.
  by destruct err.
Qed.

Lemma saveImage_ok (img : Image) (pname fname : string) (w w' : World) :
  saveImage L img pname fname w = (Val None, w') ->
  exists written,
    encode_jpeg L (load (heap w) img) 85 = (written, None) /\
    w' = mkWorld (heap w) (<[path.Join [pname; fname] := written]> (fs w))
                 (now w) (rng w)
                 (trace w ++ [EvCreate (path.Join [pname; fname]);
                              EvEncode (path.Join [pname; fname]) img 85]).
Proof.
  rewrite saveImage_eq. simpl.
  destruct (create_refused L _); [discriminate |].
  destruct (encode_jpeg L (load (heap w) img) 85) as [written [e |]];
    [discriminate |].
  intros H. inversion H. by exists written.
Qed.

(** A call into [bild]: log the call, read the arguments, place the
    result in fresh arrays. *)
Lemma effect_total (ev : Event) (f : Heap -> ImageData) (w : World) :
  exists out,
    (emit ev ;; h <- get_heap ;; new_image (f h))%go w =
    (Val out, mkWorld (heap w ++ planes (f (heap w))) (fs w) (now w) (rng w)
                      (trace w ++ [ev])) /\
    allocated (heap w ++ planes (f (heap w))) out /\
    fresh_from (length (heap w)) out /\
    forall rest, load ((heap w ++ planes (f (heap w))) ++ rest) out = f (heap w).
Proof.
  destruct (new_image_total (f (heap w)) (log_event ev w))
    as (out & Hnew & Hal & Hfr & Hload).
  exists out. unfold bind, emit, get_heap. simpl. rewrite Hnew.
  world_simpl. done.
Qed.

Lemma effect_ok (ev : Event) (f : Heap -> ImageData) (w w' : World) (out : Image) :
  (emit ev ;; h <- get_heap ;; new_image (f h))%go w = (Val out, w') ->
  w' = mkWorld (heap w ++ planes (f (heap w))) (fs w) (now w) (rng w)
               (trace w ++ [ev]) /\
  allocated (heap w') out /\
  fresh_from (length (heap w)) out /\
  forall rest, load (heap w' ++ rest) out = f (heap w).
Proof.
  destruct (effect_total ev f w) as (out0 & Heq & Hal & Hfr & Hload).
  rewrite Heq. intros H. inversion H; subst out0 w'. done.
Qed.

(** The fitting loop: [n] rounds of printing a dot and fitting one
    shape; only the random source and the trace change. *)
Lemma fitting_loop (n : nat) (i : Z) (m : Model L) (w : World) :
  for_range n i (fun _ model => fmt_Print "." ;; Model_Step L model 5 128 0)%go m w =
  (Val (fst (fitted L n m (rng w))),
   mkWorld (heap w) (fs w) (now w) (snd (fitted L n m (rng w)))
           (trace w ++ concat (replicate n fitting_round))).
Proof.
  revert i m w. induction n as [| n IH]; intros i m w.
  - simpl. unfold ret. rewrite app_nil_r. by destruct w.
  - simpl. unfold bind at 1. unfold bind at 1, fmt_Print, emit, Model_Step.
    simpl. destruct (step L m 5 128 0 (rng w)) as [m' s'] eqn:Hstep.
    rewrite IH. world_simpl. done.
Qed.

(** [primitivePicture] always returns, and this is all it does. *)
Lemma primitivePicture_total (img : Image) (w : World) :
  let d := resize L (load (heap w) img) 256 256 Linear in
  let h1 := heap w ++ planes d in
  let c := average_color L d in
  let bg := make_color L c in
  let ms := new_model L d bg 1024 (num_cpu L) (now w) in
  let ms' := fitted L 100 (fst ms) (snd ms) in
  let out := context_image L (fst ms') in
  exists small pri,
    primitivePicture L img w =
    (Val pri,
     mkWorld (h1 ++ planes out) (fs w) (now w) (snd ms')
       (trace w ++ primitive_calls img small (now w) c bg (num_cpu L))) /\
    allocated h1 small /\
    (forall rest, load (h1 ++ rest) small = d) /\
    allocated (h1 ++ planes out) pri /\
    fresh_from (length h1) pri /\
    forall rest, load ((h1 ++ planes out) ++ rest) pri = out.
Proof.
  intros d h1 c bg ms ms' out.
  destruct (effect_total (EvResize img 256 256 Linear)
              (fun h => resize L (load h img) 256 256 Linear) w)
    as (small & Hres & Hal & _ & Hload).
  fold d in Hres, Hal, Hload. fold h1 in Hres, Hal, Hload.
  unfold primitivePicture.
  set (loop := for_range 100 0 _).
  unfold transform_Resize. rewrite (bind_val _ _ _ _ _ Hres).
  unfold time_Now_UnixNano, rand_Seed, primitive_AverageImageColor,
    primitive_MakeColor, runtime_NumCPU, primitive_NewModel,
    Model_Context_Image, bind, emit, get_heap, ret.
  simpl.
  pose proof (Hload []) as Hload0. rewrite app_nil_r in Hload0.
  rewrite Hload0. fold c bg.
  destruct (new_model L d bg 1024 (num_cpu L) (now w)) as [m0 s0] eqn:Hms.
  subst loop. rewrite fitting_loop. simpl.
  match goal with
  | |- context [new_image ?x ?y] =>
      destruct (new_image_total x y) as (pri & Hnew & Hal' & Hfr' & Hload')
  end.
  rewrite Hnew. exists small, pri. unfold primitive_calls.
  subst ms ms' out. simpl in *. world_simpl.
  repeat split; try done.
Qed.

Lemma primitivePicture_ok (img : Image) (w w' : World) (pri : Image) :
  primitivePicture L img w = (Val pri, w') ->
  let d := resize L (load (heap w) img) 256 256 Linear in
  let h1 := heap w ++ planes d in
  let c := average_color L d in
  let bg := make_color L c in
  let ms := new_model L d bg 1024 (num_cpu L) (now w) in
  let ms' := fitted L 100 (fst ms) (snd ms) in
  let out := context_image L (fst ms') in
  exists small,
    w' = mkWorld (h1 ++ planes out) (fs w) (now w) (snd ms')
           (trace w ++ primitive_calls img small (now w) c bg (num_cpu L)) /\
    allocated h1 small /\
    (forall rest, load (h1 ++ rest) small = d) /\
    allocated (heap w') pri /\
    fresh_from (length h1) pri /\
    forall rest, load (heap w' ++ rest) pri = out.
Proof.
  intros H d h1 c bg ms ms' out.
  destruct (primitivePicture_total img w)
    as (small & pri0 & Heq & Hal & Hld & Hal' & Hfr' & Hld').
  rewrite Heq in H. inversion H; subst pri0 w'.
  exists small. done.
Qed.

End Functions.

Arguments primitive_calls : simpl never.
Arguments main_calls : simpl never.
Arguments fitted : simpl never.

(* ================================================================== *)
(** * The run of [main], stage by stage *)

Section Orchestrator.

Variable L : Libs.

Ltac run_step H := rewrite (bind_val _ _ _ _ _ H); cbv beta iota.

(** A failing step ends the run on the spot: exit status 1, the error
    logged, the world otherwise as the step left it. *)
Lemma main_stops (w wf : World) (e : error) :
  StepFails L w e wf ->
  main L w = (Exit 1, log_event (EvFatal (errors.Error e)) wf).
Proof.
  intros Hfail. unfold main.
  destruct Hfail as
    [ e wf H0
    | img w1 e wf H0 H1
    | sub w2 e wf (img & w1 & H0 & H1) H2
    | w3 e wf (sub & w2 & (img & w1 & H0 & H1) & H2) H3
    | img' sat w5 e wf
        (w4 & (w3 & (sub & w2 & (img & w1 & H0 & H1) & H2) & H3) & H4) H5
    | sat mult w7 e wf
        (img' & w6 & (w5 & (w4 & (w3 & (sub & w2 & (img & w1 & H0 & H1) & H2)
           & H3) & H4) & H5) & H6) H7
    | sat shrp w9 e wf
        (w8 & (mult & w7 & (img' & w6 & (w5 & (w4 & (w3 & (sub & w2 &
           (img & w1 & H0 & H1) & H2) & H3) & H4) & H5) & H6) & H7) & H8) H9
    | pri w11 e wf
        (sat & w10 & (shrp & w9 & (w8 & (mult & w7 & (img' & w6 & (w5 & (w4 &
           (w3 & (sub & w2 & (img & w1 & H0 & H1) & H2) & H3) & H4) & H5) & H6)
           & H7) & H8) & H9) & H10) H11 ];
    unfold loaded in *;
    repeat match goal with
      | H : _ = (Val _, _) |- context [bind ?m _ _] =>
          match type of H with
          | m _ = _ => run_step H
          end
      end;
    reflexivity.
Qed.

(** A run that returns went through every stage. *)
Lemma main_returns (w wf : World) :
  main L w = (Val tt, wf) ->
  exists pri w11,
    approximated L w pri w11 /\
    saveImage L pri "." "primitive.jpg" w11 = (Val None, wf).
Proof.
  unfold main. intros H.
  apply bind_inv in H as ([img | e] & w1 & H0 & H); [| discriminate].
  apply bind_inv in H as ([sub | e] & w2 & H1 & H); [| discriminate].
  apply bind_inv in H as ([e |] & w3 & H2 & H); [discriminate |].
  apply bind_inv in H as ([img' | e] & w4 & H3 & H); [| discriminate].
  apply bind_inv in H as (sat & w5 & H4 & H).
  apply bind_inv in H as ([e |] & w6 & H5 & H); [discriminate |].
  apply bind_inv in H as (mult & w7 & H6 & H).
  apply bind_inv in H as ([e |] & w8 & H7 & H); [discriminate |].
  apply bind_inv in H as (shrp & w9 & H8 & H).
  apply bind_inv in H as ([e |] & w10 & H9 & H); [discriminate |].
  apply bind_inv in H as (pri & w11 & H10 & H).
  apply bind_inv in H as ([e |] & w12 & H11 & H); [discriminate |].
  inversion H; subst w12. clear H.
  exists pri, w11. split; [| done].
  exists sat, w10. split; [| done].
  exists shrp, w9. split; [| done].
  exists w8. split; [| done].
  exists mult, w7. split; [| done].
  exists img', w6. split; [| done].
  exists w5. split; [| done].
  exists w4. split; [| done].
  exists w3. split; [| done].
  exists sub, w2. split; [| done].
  exists img, w1. split; done.
Qed.

End Orchestrator.

(* ================================================================== *)
(** * A complete run *)

Section Run.

Variable L : Libs.

Lemma extends_load (h hf : Heap) (img : Image) (d : ImageData) :
  (forall rest, load (h ++ rest) img = d) -> extends h hf -> load hf img = d.
Proof. intros Hload [rest ->]. apply Hload. Qed.

Lemma extends_stable (h hf : Heap) (img : Image) :
  allocated h img -> extends h hf -> load hf img = load h img.
Proof. intros Hal [rest ->]. by apply load_stable. Qed.

Ltac solve_extends := eexists; rewrite <- ?app_assoc; reflexivity.

Ltac norm := cbn [heap fs now rng trace] in *.

Lemma load_here (h : Heap) (img : Image) (d : ImageData) :
  (forall rest, load (h ++ rest) img = d) -> load h img = d.
Proof. intros H. specialize (H []). by rewrite app_nil_r in H. Qed.

(** Everything a complete run does: the calls in order, where each
    image comes from, and what the files hold in the end. *)
Lemma main_run (w wf : World) :
  main L w = (Val tt, wf) ->
  exists (img : Image) (rect : Rectangle)
         (sub img' sat mult shrp small pri : Image) (c : Color),
    let bg := make_color L c in
    let hf := heap wf in
    trace wf = trace w ++
      main_calls img rect sub img' sat mult shrp small pri (now w) c bg (num_cpu L) /\
    (* the picture is decoded from original.jpg *)
    (exists data, fs w !! "original.jpg" = Some data /\
                  decode_jpeg L data = Ok (load hf img)) /\
    (* the crop is the sub-image at the rectangle the detector proposed *)
    find_crop L (load hf img) 1000 1000 = Ok rect /\
    (exists si, assert_SubImager img = Some si /\ SubImage si rect = Some sub) /\
    (* the second picture is decoded from what was saved of the crop *)
    decode_jpeg L (fst (encode_jpeg L (load hf sub) 85)) = Ok (load hf img') /\
    separate_storage img' sub /\
    (* the effects *)
    load hf sat = saturation L (load hf img') 0.5%float /\
    load hf mult = multiply_blend L (load hf img') (load hf img') /\
    load hf shrp = unsharp_mask L (load hf sat) 0.6%float 1.2%float /\
    load hf small = resize L (load hf sat) 256 256 Linear /\
    c = average_color L (load hf small) /\
    load hf pri =
      context_image L
        (fst (let '(m, s) := new_model L (load hf small) bg 1024 (num_cpu L) (now w) in
              fitted L 100 m s)) /\
    (* the files *)
    fs wf =
      <["primitive.jpg" := fst (encode_jpeg L (load hf pri) 85)]>
      (<["sharpened.jpg" := fst (encode_jpeg L (load hf shrp) 85)]>
       (<["multiplied.jpg" := fst (encode_jpeg L (load hf mult) 85)]>
        (<["saturated.jpg" := fst (encode_jpeg L (load hf sat) 85)]>
         (<["cropped.jpg" := fst (encode_jpeg L (load hf sub) 85)]> (fs w))))).
Proof.
  intros Hmain.
  destruct (main_returns L w wf Hmain) as
    (pri & w11 & (sat & w10 & (shrp & w9 & (w8 & (mult & w7 & (img' & w6 &
       (w5 & (w4 & (w3 & (sub & w2 & (img & w1 & H0 & H1) & H2) & H3) & H4)
        & H5) & H6) & H7) & H8) & H9) & H10) & H11).
  unfold loaded in H0.
  (* load *)
  apply openImage_ok in H0 as (data0 & d0 & Hfs0 & Hdec0 & -> & Hal0 & Hfr0 & Hld0).
  norm.
  (* crop *)
  apply crop_ok in H1 as (rect & si & Hcrop & Hsi & Hsub & ->).
  norm.
  rewrite (load_here _ _ _ Hld0) in Hcrop.
  pose proof (SubImage_allocated _ _ _ _ _ Hsi Hsub Hal0) as Hals.
  (* save the crop *)
  apply saveImage_ok in H2 as (b1 & Henc1 & ->). norm.
  change (path.Join ["."; "cropped.jpg"]) with "cropped.jpg" in *.
  (* reload *)
  apply openImage_ok in H3 as (data1 & d1 & Hfs1 & Hdec1 & -> & Hal1 & Hfr1 & Hld1).
  norm. rewrite lookup_insert_eq in Hfs1.
  inversion Hfs1; subst data1. clear Hfs1.
  (* saturate and save *)
  unfold saturate, adjust_Saturation in H4.
  apply effect_ok in H4 as (-> & Hal2 & Hfr2 & Hld2). norm.
  rewrite (load_here _ _ _ Hld1) in *.
  set (dsat := saturation L d1 0.5%float) in *.
  apply saveImage_ok in H5 as (b2 & Henc2 & ->). norm.
  rewrite (load_here _ _ _ Hld2) in Henc2.
  change (path.Join ["."; "saturated.jpg"]) with "saturated.jpg" in *.
  (* multiply and save *)
  unfold multiply, blend_Multiply in H6.
  apply effect_ok in H6 as (-> & Hal3 & Hfr3 & Hld3). norm.
  rewrite (Hld1 (planes dsat)) in *.
  set (dmult := multiply_blend L d1 d1) in *.
  apply saveImage_ok in H7 as (b3 & Henc3 & ->). norm.
  rewrite (load_here _ _ _ Hld3) in Henc3.
  change (path.Join ["."; "multiplied.jpg"]) with "multiplied.jpg" in *.
  (* sharpen and save *)
  unfold sharpen, effect_UnsharpMask in H8.
  apply effect_ok in H8 as (-> & Hal4 & Hfr4 & Hld4). norm.
  rewrite (Hld2 (planes dmult)) in *.
  set (dshrp := unsharp_mask L dsat 0.6%float 1.2%float) in *.
  apply saveImage_ok in H9 as (b4 & Henc4 & ->). norm.
  rewrite (load_here _ _ _ Hld4) in Henc4.
  change (path.Join ["."; "sharpened.jpg"]) with "sharpened.jpg" in *.
  (* approximate and save *)
  apply primitivePicture_ok in H10 as (small & -> & Hal5 & Hld5 & Hal6 & Hfr6 & Hld6).
  norm.
  assert (Hsat9 : load ((((((heap w ++ planes d0) ++ planes d1) ++ planes dsat)
                           ++ planes dmult) ++ planes dshrp)) sat = dsat).
  { apply (extends_load _ _ _ _ Hld2). solve_extends. }
  rewrite Hsat9 in *.
  set (dsmall := resize L dsat 256 256 Linear) in *.
  set (c := average_color L dsmall) in *.
  set (bg := make_color L c) in *.
  set (dout := context_image L _) in *.
  apply saveImage_ok in H11 as (b5 & Henc5 & ->). norm.
  rewrite (load_here _ _ _ Hld6) in Henc5.
  change (path.Join ["."; "primitive.jpg"]) with "primitive.jpg" in *.
  clear Hmain.
  set (hf := (((((((heap w ++ planes d0) ++ planes d1) ++ planes dsat)
                 ++ planes dmult) ++ planes dshrp) ++ planes dsmall) ++ planes dout)) in *.
  assert (Li : load hf img = d0)
    by (apply (extends_load _ _ _ _ Hld0); subst hf; solve_extends).
  assert (Ls : load hf sub = load (heap w ++ planes d0) sub)
    by (apply extends_stable; [done | subst hf; solve_extends]).
  assert (Li' : load hf img' = d1)
    by (apply (extends_load _ _ _ _ Hld1); subst hf; solve_extends).
  assert (Lsat : load hf sat = dsat)
    by (apply (extends_load _ _ _ _ Hld2); subst hf; solve_extends).
  assert (Lmult : load hf mult = dmult)
    by (apply (extends_load _ _ _ _ Hld3); subst hf; solve_extends).
  assert (Lshrp : load hf shrp = dshrp)
    by (apply (extends_load _ _ _ _ Hld4); subst hf; solve_extends).
  assert (Lsmall : load hf small = dsmall)
    by (apply (extends_load _ _ _ _ Hld5); subst hf; solve_extends).
  assert (Lpri : load hf pri = dout) by apply (load_here _ _ _ Hld6).
  exists img, rect, sub, img', sat, mult, shrp, small, pri, c.
  cbn zeta. norm. fold hf.
  rewrite Li, Ls, Li', Lsat, Lmult, Lshrp, Lsmall, Lpri.
  rewrite Henc1, Henc2, Henc3, Henc4, Henc5. simpl fst.
  split; [unfold main_calls; rewrite <- !app_assoc; reflexivity |].
  split; [by exists data0 |].
  split; [done |].
  split; [by exists si |].
  split; [done |].
  split; [exact (fresh_separate _ _ _ Hfr1 Hals) |].
  do 5 (split; [reflexivity |]).
  split; [| reflexivity].
  subst dout bg.
  destruct (new_model L dsmall (make_color L c) 1024 (num_cpu L) (now w))
    as [m0 s0].
  reflexivity.
Qed.

End Run.

(* ================================================================== *)
(** * Cropping *)

Section Crop.

Variable L : Libs.

(** [crop] on an image with a [SubImage] method, once the detector
    has proposed [rect]: the view through [rect], and nothing but the
    trace has changed. *)
Lemma crop_supported (img : Image) (si : SubImager) (width height : Z)
    (w : World) (rect : Rectangle) :
  assert_SubImager img = Some si -> wf_image img ->
  find_crop L (load (heap w) img) width height = Ok rect ->
  exists sub,
    crop L img width height w =
    (Val (Ok sub),
     mkWorld (heap w) (fs w) (now w) (rng w)
             (trace w ++ [EvSmartcrop img width height; EvSubImage img rect])) /\
    is_view img rect sub.
Proof.
  intros Hsi Hwf Hrect.
  destruct (SubImage_view img si rect Hsi Hwf) as (Hrecv & sub & Hsub & Hview).
  exists sub. split; [| done].
  unfold crop, bind, smartcrop_Crop, bind, emit, get_heap, ret, call_SubImage.
  cbn [heap fs now rng trace log_event]. rewrite Hrect, Hsi, Hsub, Hrecv.
  unfold log_event. cbn [heap fs now rng trace]. by rewrite <- app_assoc.
Qed.

(** [crop] on an image without a [SubImage] method returns an error
    value. *)
Lemma crop_unsupported (img : Image) (width height : Z) (w : World) :
  assert_SubImager img = None ->
  crop L img width height w =
  (Val (Err (match find_crop L (load (heap w) img) width height with
             | Ok _ => errors.New "crop(): img does not support SubImage()"
             | Err e => errors.Wrap e "Smartcrop failed"
             end)),
   log_event (EvSmartcrop img width height) w).
Proof.
  intros Hsi.
  unfold crop, bind, smartcrop_Crop, bind, emit, get_heap, ret.
  cbn [heap fs now rng trace log_event].
  destruct (find_crop L (load (heap w) img) width height); [by rewrite Hsi | done].
Qed.

End Crop.

(* ================================================================== *)
(** * The properties of [crop] *)

(** C2.  [crop] asks the image for its [SubImage] method instead of
    assuming it.  An image without the method makes [crop] return an
    error value: the run goes on, nothing panics or exits, and when the
    detector has proposed a rectangle the error is the one that names the
    missing method.  A well-formed image with the method makes [crop]
    return a view through the detected rectangle: its bounds lie within
    the rectangle and the image, its slices are windows on the backing
    arrays of the input, and no array is allocated or written. *)
Theorem crop_capability_check (L : Libs) (img : Image) (width height : Z) (w : World) :
  (assert_SubImager img = None ->
   exists e,
     crop L img width height w =
       (Val (Err e), log_event (EvSmartcrop img width height) w) /\
     forall rect, find_crop L (load (heap w) img) width height = Ok rect ->
       e = errors.New "crop(): img does not support SubImage()") /\
  (forall si rect,
     assert_SubImager img = Some si -> wf_image img ->
     find_crop L (load (heap w) img) width height = Ok rect ->
     exists sub w',
       crop L img width height w = (Val (Ok sub), w') /\
       heap w' = heap w /\ fs w' = fs w /\
       Bounds sub = Intersect rect (Bounds img) /\
       shares_storage sub img /\
       forall h x y, PointIn x y (Bounds sub) = true ->
         At h sub x y = At h img x y).
Proof.
  split.
  - intros Hsi. eexists. split; [by apply crop_unsupported |].
    intros rect Hrect. by rewrite Hrect.
  - intros si rect Hsi Hwf Hrect.
    destruct (crop_supported L img si width height w rect Hsi Hwf Hrect)
      as (sub & Hcrop & Hb & _ & Hshare & Hat).
    exists sub. eexists. split; [exact Hcrop |]. done.
Qed.


(** C10.  [crop] hands the detector's rectangle to [SubImage] as it
    is.  On a well-formed image with the method it returns, whatever the
    rectangle: the bounds of the result are the intersection of the
    rectangle with the bounds of the image; they are the rectangle only
    if it lies inside the image, and they are the rectangle if it is
    non-empty and lies inside; when the intersection is empty they are
    the zero rectangle. *)
Theorem crop_never_rejects_rectangle (L : Libs) (img : Image) (si : SubImager)
    (width height : Z) (w : World) (rect : Rectangle) :
  assert_SubImager img = Some si -> wf_image img ->
  find_crop L (load (heap w) img) width height = Ok rect ->
  exists sub,
    crop L img width height w =
      (Val (Ok sub),
       mkWorld (heap w) (fs w) (now w) (rng w)
               (trace w ++ [EvSmartcrop img width height; EvSubImage img rect])) /\
    Bounds sub = Intersect rect (Bounds img) /\
    (Bounds sub = rect -> RectIn rect (Bounds img) = true) /\
    (Empty rect = false -> RectIn rect (Bounds img) = true -> Bounds sub = rect) /\
    (Empty (Intersect rect (Bounds img)) = true -> Bounds sub = ZR).
Proof.
  intros Hsi Hwf Hrect.
  destruct (crop_supported L img si width height w rect Hsi Hwf Hrect)
    as (sub & Hcrop & Hb & _).
  exists sub. split; [done |]. split; [done |]. rewrite Hb.
  split; [apply Intersect_fixed |].
  split; [apply Intersect_inside | apply Intersect_empty].
Qed.

Lemma wf_demo_picture : wf_image demo.picture.
Proof.
  unfold wf_image, demo.picture, demo.rect, rect_is_int, plane_fits, is_int,
    int_min, int_max.
  simpl. split; [lia |]. intros _. lia.
Defined.

Lemma crop_capability_check_witness :
  (exists e,
     crop demo.libs_requested demo.plain 1000 1000 demo.picture_world =
       (Val (Err e), log_event (EvSmartcrop demo.plain 1000 1000) demo.picture_world) /\
     forall rect,
       find_crop demo.libs_requested (load (heap demo.picture_world) demo.plain)
                 1000 1000 = Ok rect ->
       e = errors.New "crop(): img does not support SubImage()") /\
  (exists sub w',
     crop demo.libs_requested demo.picture 1000 1000 demo.picture_world =
       (Val (Ok sub), w') /\
     heap w' = heap demo.picture_world /\ fs w' = fs demo.picture_world /\
     Bounds sub = Intersect (demo.rect 0 0 1000 1000) (Bounds demo.picture) /\
     shares_storage sub demo.picture /\
     forall h x y, PointIn x y (Bounds sub) = true ->
       At h sub x y = At h demo.picture x y).
Proof.
  split.
  - apply (proj1 (crop_capability_check demo.libs_requested demo.plain 1000 1000
                    demo.picture_world)).
    reflexivity.
  - eapply (proj2 (crop_capability_check demo.libs_requested demo.picture 1000 1000
                     demo.picture_world)).
    + reflexivity.
    + exact wf_demo_picture.
    + reflexivity.
Defined.



Lemma crop_never_rejects_rectangle_witness :
  exists sub,
    crop demo.libs_requested demo.picture 1000 1000 demo.picture_world =
      (Val (Ok sub),
       mkWorld (heap demo.picture_world) (fs demo.picture_world)
               (now demo.picture_world) (rng demo.picture_world)
               (trace demo.picture_world ++
                [EvSmartcrop demo.picture 1000 1000;
                 EvSubImage demo.picture (demo.rect 0 0 1000 1000)])) /\
    Bounds sub = Intersect (demo.rect 0 0 1000 1000) (Bounds demo.picture) /\
    (Bounds sub = demo.rect 0 0 1000 1000 ->
     RectIn (demo.rect 0 0 1000 1000) (Bounds demo.picture) = true) /\
    (Empty (demo.rect 0 0 1000 1000) = false ->
     RectIn (demo.rect 0 0 1000 1000) (Bounds demo.picture) = true ->
     Bounds sub = demo.rect 0 0 1000 1000) /\
    (Empty (Intersect (demo.rect 0 0 1000 1000) (Bounds demo.picture)) = true ->
     Bounds sub = ZR).
Proof.
  eapply (crop_never_rejects_rectangle demo.libs_requested demo.picture _ 1000 1000
            demo.picture_world (demo.rect 0 0 1000 1000)).
  - reflexivity.
  - exact wf_demo_picture.
  - reflexivity.
Defined.

(* ================================================================== *)
(** * The properties of [main] *)

(** C1.  A run of [main] that returns has made exactly the calls
    [main_calls], in that order: open and decode [original.jpg]; ask the
    detector for a 1000 by 1000 region of the picture and take that
    sub-image of it; save the sub-image as [cropped.jpg]; open and decode
    [cropped.jpg]; saturate the decoded picture and save the result;
    multiply the decoded picture (not the saturated one) with itself and
    save the result; sharpen the saturated picture and save the result;
    approximate the saturated picture by primitives and save the result.
    The second picture is decoded from the bytes the encoder wrote for
    the crop and lies in backing arrays of its own, apart from those of
    the crop; each later image holds what its library computes from the
    images named. *)
Theorem main_fixed_sequence (L : Libs) (w wf : World) :
  main L w = (Val tt, wf) ->
  exists (img : Image) (rect : Rectangle)
         (sub img' sat mult shrp small pri : Image) (c : Color),
    let bg := make_color L c in
    let hf := heap wf in
    trace wf = trace w ++
      main_calls img rect sub img' sat mult shrp small pri (now w) c bg (num_cpu L) /\
    (exists data, fs w !! "original.jpg" = Some data /\
                  decode_jpeg L data = Ok (load hf img)) /\
    find_crop L (load hf img) 1000 1000 = Ok rect /\
    (exists si, assert_SubImager img = Some si /\ SubImage si rect = Some sub) /\
    decode_jpeg L (fst (encode_jpeg L (load hf sub) 85)) = Ok (load hf img') /\
    separate_storage img' sub /\
    load hf sat = saturation L (load hf img') 0.5%float /\
    load hf mult = multiply_blend L (load hf img') (load hf img') /\
    load hf shrp = unsharp_mask L (load hf sat) 0.6%float 1.2%float /\
    load hf small = resize L (load hf sat) 256 256 Linear /\
    c = average_color L (load hf small) /\
    load hf pri =
      context_image L
        (fst (let '(m, s) := new_model L (load hf small) bg 1024 (num_cpu L) (now w) in
              fitted L 100 m s)).
Proof.
  intros Hmain.
  destruct (main_run L w wf Hmain)
    as (img & rect & sub & img' & sat & mult & shrp & small & pri & c & H).
  cbn zeta in H.
  exists img, rect, sub, img', sat, mult, shrp, small, pri, c. cbn zeta.
  destruct H as (T & D & F & S & R & P & E1 & E2 & E3 & E4 & E5 & E6 & _).
  do 11 (split; [assumption |]). assumption.
Qed.

Lemma main_fixed_sequence_witness :
  main demo.libs demo.world = (Val tt, snd (main demo.libs demo.world)) /\
  exists (img : Image) (rect : Rectangle)
         (sub img' sat mult shrp small pri : Image) (c : Color),
    let L := demo.libs in
    let w := demo.world in
    let wf := snd (main demo.libs demo.world) in
    let bg := make_color L c in
    let hf := heap wf in
    trace wf = trace w ++
      main_calls img rect sub img' sat mult shrp small pri (now w) c bg (num_cpu L) /\
    (exists data, fs w !! "original.jpg" = Some data /\
                  decode_jpeg L data = Ok (load hf img)) /\
    find_crop L (load hf img) 1000 1000 = Ok rect /\
    (exists si, assert_SubImager img = Some si /\ SubImage si rect = Some sub) /\
    decode_jpeg L (fst (encode_jpeg L (load hf sub) 85)) = Ok (load hf img') /\
    separate_storage img' sub /\
    load hf sat = saturation L (load hf img') 0.5%float /\
    load hf mult = multiply_blend L (load hf img') (load hf img') /\
    load hf shrp = unsharp_mask L (load hf sat) 0.6%float 1.2%float /\
    load hf small = resize L (load hf sat) 256 256 Linear /\
    c = average_color L (load hf small) /\
    load hf pri =
      context_image L
        (fst (let '(m, s) := new_model L (load hf small) bg 1024 (num_cpu L) (now w) in
              fitted L 100 m s)).
Proof.
  assert (Hrun : main demo.libs demo.world = (Val tt, snd (main demo.libs demo.world)))
    by (vm_compute; reflexivity).
  split; [exact Hrun |].
  exact (main_fixed_sequence demo.libs demo.world _ Hrun).
Defined.

(** C3.  When a step of [main] returns an error, in the world the steps
    before it have produced, the run ends there: the process exits with
    status 1, the message of the wrapped error is logged, and the world
    is otherwise the one the failing step left.  No later step has run,
    nothing is retried, and the files written so far stay as they are. *)
Theorem main_fail_fast (L : Libs) (w wf : World) (e : error) :
  StepFails L w e wf ->
  main L w = (Exit 1, log_event (EvFatal (errors.Error e)) wf) /\
  trace (snd (main L w)) = trace wf ++ [EvFatal (errors.Error e)] /\
  fs (snd (main L w)) = fs wf /\
  heap (snd (main L w)) = heap wf.
Proof.
  intros Hfail. rewrite (main_stops L w wf e Hfail). done.
Qed.

(** A run that fails at its fifth step: the system refuses to create
    [saturated.jpg], after [cropped.jpg] has been written. *)
Lemma refused_run_step_fails :
  exists wf,
    StepFails demo.libs_refused demo.world
      (errors.Wrap (errors.New "open saturated.jpg: permission denied")
                   "Cannot create file: saturated.jpg") wf /\
    fs wf !! "cropped.jpg" = Some [2; 2; 20; 30; 50; 60] /\
    fs wf !! "saturated.jpg" = None.
Proof.
  eexists. split; [| split].
  - eapply fails_save_saturated.
    + eexists. split.
      * eexists. split.
        -- eexists. eexists. split.
           ++ eexists. eexists. split.
              ** unfold loaded. vm_compute. reflexivity.
              ** vm_compute. reflexivity.
           ++ vm_compute. reflexivity.
        -- vm_compute. reflexivity.
      * vm_compute. reflexivity.
    + vm_compute. reflexivity.
  - vm_compute. reflexivity.
  - vm_compute. reflexivity.
Defined.

Lemma main_fail_fast_witness :
  exists wf,
    let L := demo.libs_refused in
    let w := demo.world in
    let e := errors.Wrap (errors.New "open saturated.jpg: permission denied")
                         "Cannot create file: saturated.jpg" in
    StepFails L w e wf /\
    fs wf !! "cropped.jpg" = Some [2; 2; 20; 30; 50; 60] /\
    main L w = (Exit 1, log_event (EvFatal (errors.Error e)) wf) /\
    trace (snd (main L w)) = trace wf ++ [EvFatal (errors.Error e)] /\
    fs (snd (main L w)) = fs wf /\
    heap (snd (main L w)) = heap wf.
Proof.
  destruct refused_run_step_fails as (wf & Hfail & Hfs & _).
  exists wf. cbn zeta.
  split; [exact Hfail |].
  split; [exact Hfs |].
  exact (main_fail_fast _ _ _ _ Hfail).
Defined.

Lemma five_files (m : gmap string (list Z)) (b1 b2 b3 b4 b5 : list Z) :
  let outputs := ["cropped.jpg"; "saturated.jpg"; "multiplied.jpg";
                  "sharpened.jpg"; "primitive.jpg"] in
  let m' := <["primitive.jpg" := b5]> (<["sharpened.jpg" := b4]>
            (<["multiplied.jpg" := b3]> (<["saturated.jpg" := b2]>
            (<["cropped.jpg" := b1]> m)))) in
  (forall name, name ∈ outputs -> is_Some (m' !! name)) /\
  (forall name, name ∉ outputs -> m' !! name = m !! name).
Proof.
  intros outputs m'. subst outputs m'. split.
  - intros name Hin. set_unfold in Hin.
    destruct Hin as [-> | [-> | [-> | [-> | [-> | []]]]]];
      simplify_map_eq; eauto.
  - intros name Hnot. set_unfold in Hnot.
    rewrite !lookup_insert_ne by (intros <-; tauto). reflexivity.
Qed.

(** C8, as amended.  A run of [main] that returns opens two files, the
    input [original.jpg] and then its own [cropped.jpg], and creates
    exactly five, in this order: [cropped.jpg], [saturated.jpg],
    [multiplied.jpg], [sharpened.jpg] and [primitive.jpg], the names
    [path.Join] makes of the directory [.] and each file name.  Every one
    of them is written by the JPEG encoder at quality 85, all five exist
    in the end, and no other file is changed. *)
Theorem main_reads_and_writes (L : Libs) (w wf : World) :
  main L w = (Val tt, wf) ->
  let outputs := ["cropped.jpg"; "saturated.jpg"; "multiplied.jpg";
                  "sharpened.jpg"; "primitive.jpg"] in
  exists calls,
    trace wf = trace w ++ calls /\
    opened calls = ["original.jpg"; "cropped.jpg"] /\
    created calls = outputs /\
    outputs = map (fun name => path.Join ["."; name]) outputs /\
    encoded calls = map (fun name => (name, 85)) outputs /\
    (forall name, name ∈ outputs -> is_Some (fs wf !! name)) /\
    (forall name, name ∉ outputs -> fs wf !! name = fs w !! name).
Proof.
  intros Hmain outputs.
  destruct (main_run L w wf Hmain)
    as (img & rect & sub & img' & sat & mult & shrp & small & pri & c & H).
  cbn zeta in H.
  destruct H as (T & _ & _ & _ & _ & _ & _ & _ & _ & _ & _ & _ & F).
  eexists. split; [exact T |].
  split; [reflexivity |]. split; [reflexivity |].
  split; [reflexivity |]. split; [reflexivity |].
  rewrite F. apply five_files.
Qed.

Lemma main_reads_and_writes_witness :
  main demo.libs demo.world = (Val tt, snd (main demo.libs demo.world)) /\
  let w := demo.world in
  let wf := snd (main demo.libs demo.world) in
  let outputs := ["cropped.jpg"; "saturated.jpg"; "multiplied.jpg";
                  "sharpened.jpg"; "primitive.jpg"] in
  exists calls,
    trace wf = trace w ++ calls /\
    opened calls = ["original.jpg"; "cropped.jpg"] /\
    created calls = outputs /\
    outputs = map (fun name => path.Join ["."; name]) outputs /\
    encoded calls = map (fun name => (name, 85)) outputs /\
    (forall name, name ∈ outputs -> is_Some (fs wf !! name)) /\
    (forall name, name ∉ outputs -> fs wf !! name = fs w !! name).
Proof.
  assert (Hrun : main demo.libs demo.world = (Val tt, snd (main demo.libs demo.world)))
    by (vm_compute; reflexivity).
  split; [exact Hrun |].
  exact (main_reads_and_writes demo.libs demo.world _ Hrun).
Defined.

(** C8 as stated fails: this complete run creates five files, not
    four. *)
Lemma four_outputs_counterexample :
  fst (main demo.libs demo.world) = Val tt /\
  created (trace (snd (main demo.libs demo.world))) =
    ["cropped.jpg"; "saturated.jpg"; "multiplied.jpg";
     "sharpened.jpg"; "primitive.jpg"] /\
  NoDup (created (trace (snd (main demo.libs demo.world)))) /\
  length (created (trace (snd (main demo.libs demo.world)))) <> 4%nat.
Proof.
  assert (Hc : created (trace (snd (main demo.libs demo.world))) =
               ["cropped.jpg"; "saturated.jpg"; "multiplied.jpg";
                "sharpened.jpg"; "primitive.jpg"])
    by (vm_compute; reflexivity).
  split; [vm_compute; reflexivity |].
  split; [exact Hc |]. rewrite Hc.
  split; [| discriminate].
  apply (bool_decide_unpack _). vm_compute. reflexivity.
Qed.

(* ================================================================== *)
(** * The properties of the effects *)






(** The notion has teeth: the approximation by primitives is not
    deterministic, since its result depends on the clock. *)
Lemma primitivePicture_not_deterministic :
  ~ deterministic (primitivePicture demo.libs).
Proof.
  intros Hdet.
  destruct (Hdet demo.picture demo.picture_world demo.picture_world_later eq_refl)
    as (o1 & o2 & w1' & w2' & H1 & H2 & Hsame).
  vm_compute in H1. vm_compute in H2.
  inversion H1; subst o1 w1'. inversion H2; subst o2 w2'.
  vm_compute in Hsame. discriminate Hsame.
Qed.

(* ================================================================== *)
(** * The properties of [saveImage] *)

(** C7.  [saveImage] writes to the one path [path.Join] makes of the
    directory and the file name.  When the system lets it create that
    file, it calls the JPEG encoder on the image at quality 85, a
    constant of the function, and the file then holds exactly what the
    encoder wrote: what a file of that name held before is gone, no other
    file is touched, and nothing but the two calls is logged, so no
    warning is given. *)
Theorem saveImage_overwrites (L : Libs) (img : Image) (pname fname : string)
    (w : World) (written : list Z) (err : option error) :
  create_refused L (path.Join [pname; fname]) = None ->
  encode_jpeg L (load (heap w) img) 85 = (written, err) ->
  let fpath := path.Join [pname; fname] in
  exists w',
    saveImage L img pname fname w =
      (Val (match err with
            | Some e => Some (errors.Wrap e "Failed to encode the image as JPEG")
            | None => None
            end), w') /\
    trace w' = trace w ++ [EvCreate fpath; EvEncode fpath img 85] /\
    fs w' = <[fpath := written]> (fs w) /\
    fs w' !! fpath = Some written /\
    (forall other, other <> fpath -> fs w' !! other = fs w !! other) /\
    heap w' = heap w.
Proof.
  intros Hcreate Henc fpath. subst fpath. rewrite saveImage_eq. cbn zeta.
  rewrite Hcreate, Henc. eexists. split; [reflexivity |].
  cbn [heap fs now rng trace].
  split; [reflexivity |]. split; [reflexivity |].
  split; [apply lookup_insert_eq |]. split; [| reflexivity].
  intros other Hother. by apply lookup_insert_ne.
Qed.

Lemma saveImage_overwrites_witness :
  path.Join ["out"; "a.jpg"] = "out/a.jpg" /\
  fs demo.picture_world_stale !! "out/a.jpg" = Some [7; 7; 7; 7; 7; 7; 7; 7; 7] /\
  exists w',
    saveImage demo.libs demo.picture "out" "a.jpg" demo.picture_world_stale =
      (Val None, w') /\
    trace w' = trace demo.picture_world_stale ++
               [EvCreate "out/a.jpg"; EvEncode "out/a.jpg" demo.picture 85] /\
    fs w' = <["out/a.jpg" := [3; 2; 10; 20; 30; 40; 50; 60]]>
              (fs demo.picture_world_stale) /\
    fs w' !! "out/a.jpg" = Some [3; 2; 10; 20; 30; 40; 50; 60] /\
    (forall other, other <> "out/a.jpg" ->
       fs w' !! other = fs demo.picture_world_stale !! other) /\
    heap w' = heap demo.picture_world_stale.
Proof.
  split; [reflexivity |]. split; [vm_compute; reflexivity |].
  apply (saveImage_overwrites demo.libs demo.picture "out" "a.jpg"
           demo.picture_world_stale [3; 2; 10; 20; 30; 40; 50; 60] None).
  - reflexivity.
  - vm_compute. reflexivity.
Defined.

(** C9.  [saveImage] creates the file, truncating what was there, and
    only then encodes.  When the encoder fails, [saveImage] returns the
    wrapped error and leaves the file behind with the bytes written up to
    the failure, none or some: unless the file held exactly those bytes
    before, the file system is not what it was. *)
Theorem saveImage_not_atomic (L : Libs) (img : Image) (pname fname : string)
    (w : World) (written : list Z) (e : error) :
  create_refused L (path.Join [pname; fname]) = None ->
  encode_jpeg L (load (heap w) img) 85 = (written, Some e) ->
  let fpath := path.Join [pname; fname] in
  exists w',
    saveImage L img pname fname w =
      (Val (Some (errors.Wrap e "Failed to encode the image as JPEG")), w') /\
    trace w' = trace w ++ [EvCreate fpath; EvEncode fpath img 85] /\
    fs (snd (os_Create L fpath w)) !! fpath = Some [] /\
    fs w' !! fpath = Some written /\
    (fs w !! fpath <> Some written -> fs w' <> fs w).
Proof.
  intros Hcreate Henc fpath. subst fpath. rewrite saveImage_eq. cbn zeta.
  rewrite Hcreate, Henc. eexists. split; [reflexivity |].
  cbn [heap fs now rng trace].
  split; [reflexivity |].
  split; [unfold os_Create; rewrite Hcreate; apply lookup_insert_eq |].
  split; [apply lookup_insert_eq |].
  intros Hold Heq. apply Hold. rewrite <- Heq. apply lookup_insert_eq.
Qed.

Lemma saveImage_not_atomic_witness :
  fs demo.picture_world_stale !! "out/a.jpg" = Some [7; 7; 7; 7; 7; 7; 7; 7; 7] /\
  exists w',
    saveImage demo.libs_short_write demo.picture "out" "a.jpg"
              demo.picture_world_stale =
      (Val (Some (errors.Wrap (errors.New "short write")
                              "Failed to encode the image as JPEG")), w') /\
    trace w' = trace demo.picture_world_stale ++
               [EvCreate "out/a.jpg"; EvEncode "out/a.jpg" demo.picture 85] /\
    fs (snd (os_Create demo.libs_short_write "out/a.jpg" demo.picture_world_stale))
      !! "out/a.jpg" = Some [] /\
    fs w' !! "out/a.jpg" = Some [255; 216] /\
    (fs demo.picture_world_stale !! "out/a.jpg" <> Some [255; 216] ->
     fs w' <> fs demo.picture_world_stale).
Proof.
  split; [vm_compute; reflexivity |].
  apply (saveImage_not_atomic demo.libs_short_write demo.picture "out" "a.jpg"
           demo.picture_world_stale [255; 216] (errors.New "short write")).
  - reflexivity.
  - reflexivity.
Defined.

(* ================================================================== *)
(** * Loading and saving, further *)

Section LoadSave.

Variable L : Libs.

(** [openImage] in full. *)
Lemma openImage_eq (p : string) (w : World) :
  openImage L p w =
  match open_refused L p with
  | Some e =>
      (Val (Err (errors.Wrap e ("Cannot open " +:+ p))), log_event (EvOpen p) w)
  | None =>
      match fs w !! p with
      | None =>
          (Val (Err (errors.Wrap
                       (errors.New ("open " +:+ p +:+ ": no such file or directory"))
                       ("Cannot open " +:+ p))),
           log_event (EvOpen p) w)
      | Some data =>
          match decode_jpeg L data with
          | Err e =>
              (Val (Err (errors.Wrap e "Decoding the image failed.")),
               mkWorld (heap w) (fs w) (now w) (rng w)
                       (trace w ++ [EvOpen p; EvDecode p]))
          | Ok d =>
              match new_image d (mkWorld (heap w) (fs w) (now w) (rng w)
                                         (trace w ++ [EvOpen p; EvDecode p])) with
              | (Val img, w') => (Val (Ok img), w')
              | (Exit c, w') => (Exit c, w')
              | (Panic, w') => (Panic, w')
              end
          end
      end
  end.
Proof.
  unfold openImage, bind, os_Open, jpeg_Decode, ret. simpl.
  destruct (open_refused L p); [reflexivity |].
  destruct (fs w !! p) as [data |] eqn:Hfs; [| reflexivity]. simpl.
  rewrite Hfs. world_simpl.
  destruct (decode_jpeg L data) as [d | e]; [| reflexivity].
  destruct (new_image_total d (mkWorld (heap w) (fs w) (now w) (rng w)
                                       (trace w ++ [EvOpen p; EvDecode p])))
    as (img & Hnew & _).
  rewrite Hnew. reflexivity.
Qed.


(** X1.  When [openImage] returns an error, memory and files are as
    before and the error tells the two causes apart: either the file could
    not be opened (the system refused, or there is no such file), the
    error is wrapped in "Cannot open" and the path, and the decoder was
    not called; or the file was opened, the decoder rejected its bytes,
    and the error is wrapped in "Decoding the image failed.". *)
Theorem openImage_failure (p : string) (w w' : World) (e : error) :
  openImage L p w = (Val (Err e), w') ->
  heap w' = heap w /\ fs w' = fs w /\
  ((exists cause,
      e = errors.Wrap cause ("Cannot open " +:+ p) /\
      trace w' = trace w ++ [EvOpen p] /\
      (open_refused L p = Some cause \/
       (open_refused L p = None /\ fs w !! p = None))) \/
   (exists cause data,
      e = errors.Wrap cause "Decoding the image failed." /\
      trace w' = trace w ++ [EvOpen p; EvDecode p] /\
      open_refused L p = None /\ fs w !! p = Some data /\
      decode_jpeg L data = Err cause)).
Proof.
  rewrite openImage_eq.
  destruct (open_refused L p) as [e0 |] eqn:Hopen.
  - intros H. inversion H; subst e w'. cbn [heap fs trace log_event].
    split; [done |]. split; [done |]. left. exists e0. auto.
  - destruct (fs w !! p) as [data |] eqn:Hfs.
    + destruct (decode_jpeg L data) as [d | e0] eqn:Hdec.
      * destruct (new_image d _) as [[img | c |] w1]; discriminate.
      * intros H. inversion H; subst e w'. cbn [heap fs trace].
        split; [done |]. split; [done |]. right. exists e0, data. auto.
    + intros H. inversion H; subst e w'. cbn [heap fs trace log_event].
      split; [done |]. split; [done |]. left. eexists. eauto.
Qed.

(** X2.  When [openImage] returns an image, the file exists and the
    image holds what the decoder made of its bytes.  The image lies in
    arrays of its own: it shares storage with no image that was in memory
    before, every such image still holds what it held, and the files are
    untouched. *)
Theorem openImage_fresh (p : string) (w w' : World) (img : Image) :
  openImage L p w = (Val (Ok img), w') ->
  (exists data, fs w !! p = Some data /\
                decode_jpeg L data = Ok (load (heap w') img)) /\
  fs w' = fs w /\
  trace w' = trace w ++ [EvOpen p; EvDecode p] /\
  forall other, allocated (heap w) other ->
    separate_storage img other /\
    load (heap w') other = load (heap w) other.
Proof.
  intros H.
  apply openImage_ok in H as (data & d & Hfs & Hdec & -> & Hal & Hfr & Hld).
  cbn [heap fs now rng trace] in *.
  split; [exists data; by rewrite (load_here _ _ _ Hld) |].
  split; [done |]. split; [done |].
  intros other Hother. split.
  - by apply (fresh_separate (heap w)).
  - by apply load_stable.
Qed.

(** X3.  When the system refuses to create the file, [saveImage] returns
    the error wrapped in "Cannot create file:" and the joined path; the
    encoder is not called and no file is created or changed. *)
Theorem saveImage_refused (img : Image) (pname fname : string) (w : World)
    (e : error) :
  create_refused L (path.Join [pname; fname]) = Some e ->
  let fpath := path.Join [pname; fname] in
  exists w',
    saveImage L img pname fname w =
      (Val (Some (errors.Wrap e ("Cannot create file: " +:+ fpath))), w') /\
    fs w' = fs w /\ heap w' = heap w /\
    trace w' = trace w ++ [EvCreate fpath].
Proof.
  intros Hcreate fpath. subst fpath. rewrite saveImage_eq. cbn zeta.
  rewrite Hcreate. eexists. split; [reflexivity |]. done.
Qed.

(** X4.  What [saveImage] has saved, [openImage] reads back: after a
    successful save, opening the joined path hands the decoder exactly
    the bytes the encoder wrote for the image.  If the decoder accepts
    them, the result holds the decoded data, in storage apart from the
    image that was saved; if it rejects them, the result is the decoding
    error. *)
Theorem save_then_open (img : Image) (pname fname : string) (w w1 : World) :
  saveImage L img pname fname w = (Val None, w1) ->
  open_refused L (path.Join [pname; fname]) = None ->
  allocated (heap w) img ->
  let fpath := path.Join [pname; fname] in
  let written := fst (encode_jpeg L (load (heap w) img) 85) in
  fs w1 !! fpath = Some written /\
  match decode_jpeg L written with
  | Ok d =>
      exists img' w2,
        openImage L fpath w1 = (Val (Ok img'), w2) /\
        load (heap w2) img' = d /\
        separate_storage img' img /\
        load (heap w2) img = load (heap w) img
  | Err e =>
      exists w2,
        openImage L fpath w1 =
          (Val (Err (errors.Wrap e "Decoding the image failed.")), w2) /\
        heap w2 = heap w
  end.
Proof.
  intros Hsave Hopen Hal fpath written. subst fpath written.
  apply saveImage_ok in Hsave as (b & Henc & ->). rewrite Henc. cbn [fst].
  cbn [fs]. rewrite lookup_insert_eq. split; [done |].
  rewrite openImage_eq, Hopen. cbn [fs heap now rng trace].
  rewrite lookup_insert_eq.
  destruct (decode_jpeg L b) as [d | e].
  - match goal with
    | |- context [new_image d ?w0] =>
        destruct (new_image_total d w0) as (img' & Hnew & Hal' & Hfr & Hld)
    end.
    rewrite Hnew. exists img'. eexists. split; [reflexivity |].
    cbn [heap] in *.
    split; [apply (load_here _ _ _ Hld) |].
    split; [by apply (fresh_separate (heap w)) | by apply load_stable].
  - eexists. split; [reflexivity | done].
Qed.

End LoadSave.

Lemma openImage_failure_witness :
  let w := demo.world_garbled in
  let w' := snd (openImage demo.libs "original.jpg" w) in
  let e := errors.Wrap (errors.New "unexpected EOF") "Decoding the image failed." in
  openImage demo.libs "original.jpg" w = (Val (Err e), w') /\
  heap w' = heap w /\ fs w' = fs w /\
  ((exists cause,
      e = errors.Wrap cause ("Cannot open " +:+ "original.jpg") /\
      trace w' = trace w ++ [EvOpen "original.jpg"] /\
      (open_refused demo.libs "original.jpg" = Some cause \/
       (open_refused demo.libs "original.jpg" = None /\
        fs w !! "original.jpg" = None))) \/
   (exists cause data,
      e = errors.Wrap cause "Decoding the image failed." /\
      trace w' = trace w ++ [EvOpen "original.jpg"; EvDecode "original.jpg"] /\
      open_refused demo.libs "original.jpg" = None /\
      fs w !! "original.jpg" = Some data /\
      decode_jpeg demo.libs data = Err cause)).
Proof.
  cbn zeta.
  assert (Hrun : openImage demo.libs "original.jpg" demo.world_garbled =
                 (Val (Err (errors.Wrap (errors.New "unexpected EOF")
                                        "Decoding the image failed.")),
                  snd (openImage demo.libs "original.jpg" demo.world_garbled)))
    by (vm_compute; reflexivity).
  split; [exact Hrun |].
  exact (openImage_failure demo.libs _ _ _ _ Hrun).
Defined.

Lemma openImage_fresh_witness :
  let w := demo.world in
  let w' := snd (openImage demo.libs "original.jpg" w) in
  let img := ImgPix Gray (Slice (Some 0%nat) 0 6) 3 (demo.rect 0 0 3 2) in
  openImage demo.libs "original.jpg" w = (Val (Ok img), w') /\
  (exists data, fs w !! "original.jpg" = Some data /\
                decode_jpeg demo.libs data = Ok (load (heap w') img)) /\
  fs w' = fs w /\
  trace w' = trace w ++ [EvOpen "original.jpg"; EvDecode "original.jpg"] /\
  forall other, allocated (heap w) other ->
    separate_storage img other /\
    load (heap w') other = load (heap w) other.
Proof.
  cbn zeta.
  assert (Hrun : openImage demo.libs "original.jpg" demo.world =
                 (Val (Ok (ImgPix Gray (Slice (Some 0%nat) 0 6) 3 (demo.rect 0 0 3 2))),
                  snd (openImage demo.libs "original.jpg" demo.world)))
    by (vm_compute; reflexivity).
  split; [exact Hrun |].
  exact (openImage_fresh demo.libs _ _ _ _ Hrun).
Defined.

Lemma saveImage_refused_witness :
  exists w',
    saveImage demo.libs_refused demo.picture "." "saturated.jpg"
              demo.picture_world_stale =
      (Val (Some (errors.Wrap (errors.New "open saturated.jpg: permission denied")
                              ("Cannot create file: " +:+ "saturated.jpg"))), w') /\
    fs w' = fs demo.picture_world_stale /\
    heap w' = heap demo.picture_world_stale /\
    trace w' = trace demo.picture_world_stale ++ [EvCreate "saturated.jpg"].
Proof.
  apply (saveImage_refused demo.libs_refused demo.picture "." "saturated.jpg"
           demo.picture_world_stale).
  reflexivity.
Defined.

Lemma allocated_demo_picture : allocated demo.picture_heap demo.picture.
Proof.
  intros s a Hs Ha. apply list_elem_of_singleton in Hs. subst s.
  inversion Ha. simpl. lia.
Defined.

Lemma save_then_open_witness :
  let w := demo.picture_world_stale in
  let w1 := snd (saveImage demo.libs demo.picture "out" "a.jpg" w) in
  saveImage demo.libs demo.picture "out" "a.jpg" w = (Val None, w1) /\
  fs w1 !! "out/a.jpg" = Some [3; 2; 10; 20; 30; 40; 50; 60] /\
  exists img' w2,
    openImage demo.libs "out/a.jpg" w1 = (Val (Ok img'), w2) /\
    load (heap w2) img' = demo.gray 3 2 [10; 20; 30; 40; 50; 60] /\
    separate_storage img' demo.picture /\
    load (heap w2) demo.picture = load (heap w) demo.picture.
Proof.
  cbn zeta.
  assert (Hrun : saveImage demo.libs demo.picture "out" "a.jpg"
                   demo.picture_world_stale =
                 (Val None, snd (saveImage demo.libs demo.picture "out" "a.jpg"
                                   demo.picture_world_stale)))
    by (vm_compute; reflexivity).
  split; [exact Hrun |].
  exact (save_then_open demo.libs demo.picture "out" "a.jpg" _ _ Hrun eq_refl
           allocated_demo_picture).
Defined.

(* ================================================================== *)
(** * Cropping, further *)

Lemma is_Some_slice_read (h : Heap) (s : slice) (i : Z) (k : nat) :
  0 <= i -> i + Z.of_nat k <= len s -> is_Some (slice_read h s i k).
Proof.
  intros Hlo Hhi. unfold slice_read.
  destruct (Z.leb_spec 0 i), (Z.leb_spec (i + Z.of_nat k) (len s));
    simpl; (eauto || lia).
Qed.

(** Reading a pixel of a well-formed image never panics, inside the
    bounds or outside. *)
Lemma At_total (h : Heap) (img : Image) (x y : Z) :
  wf_image img -> is_Some (At h img x y).
Proof.
  intros Hwf.
  destruct img as [k p st rc | ys cb cr yst cst ratio rc | c]; simpl.
  - destruct (PointIn x y rc) eqn:Hin; simpl; [| eauto].
    destruct Hwf as [Hint Hfit].
    assert (Hne : Empty rc = false)
      by (apply PointIn_true in Hin; apply Empty_false; lia).
    destruct (PixOffset_exact k st rc (len p) x y (Hfit Hne) Hin) as (-> & Hlo & Hhi).
    by apply is_Some_slice_read.
  - destruct (PointIn x y rc) eqn:Hin; simpl; [| eauto].
    destruct Hwf as [Hint Hfit].
    assert (Hne : Empty rc = false)
      by (apply PointIn_true in Hin; apply Empty_false; lia).
    destruct (Hfit Hne) as (HfY & HfCb & HfCr).
    destruct (YOffset_exact yst rc (len ys) x y HfY Hin) as (-> & HloY & HhiY).
    destruct (COffset_exact ratio cst rc (len cb) x y Hint HfCb Hin)
      as (-> & HloC & HhiCb).
    destruct (COffset_exact ratio cst rc (len cr) x y Hint HfCr Hin)
      as (_ & _ & HhiCr).
    destruct (is_Some_slice_read h ys _ 1 HloY HhiY) as [a ->].
    destruct (is_Some_slice_read h cb _ 1 HloC HhiCb) as [b ->].
    destruct (is_Some_slice_read h cr _ 1 HloC HhiCr) as [c ->].
    eauto.
  - eauto.
Qed.

Lemma PointIn_Intersect (x y : Z) (r s : Rectangle) :
  PointIn x y (Intersect r s) = true ->
  PointIn x y r = true /\ PointIn x y s = true.
Proof.
  intros Hin. apply PointIn_true in Hin.
  destruct (Intersect_cases r s) as [[HZ _] | (Hne & Hx0 & Hy0 & Hx1 & Hy1)].
  - rewrite HZ in Hin. simpl in Hin. lia.
  - split; apply PointIn_true; lia.
Qed.

Section CropMore.

Variable L : Libs.

(** What [crop] returned for a well-formed image is the view through
    the rectangle the detector proposed. *)
Lemma crop_ok_view (img sub : Image) (width height : Z) (w w' : World) :
  wf_image img ->
  crop L img width height w = (Val (Ok sub), w') ->
  exists rect si,
    find_crop L (load (heap w) img) width height = Ok rect /\
    assert_SubImager img = Some si /\ SubImage si rect = Some sub /\
    is_view img rect sub /\
    w' = mkWorld (heap w) (fs w) (now w) (rng w)
                 (trace w ++ [EvSmartcrop img width height; EvSubImage img rect]).
Proof.
  intros Hwf Hcrop.
  apply crop_ok in Hcrop as (rect & si & Hrect & Hsi & Hsub & ->).
  destruct (SubImage_view img si rect Hsi Hwf) as (_ & sub0 & Hsub0 & Hview).
  rewrite Hsub in Hsub0. inversion Hsub0; subst sub0.
  exists rect, si. done.
Qed.

(** X5.  On a well-formed image [crop] always returns: it never panics
    and never ends the process, whatever the detector answers, and it
    changes neither the memory nor the files.  When the detector fails,
    the result is its error wrapped in "Smartcrop failed", for images
    with and without a [SubImage] method alike, and [SubImage] is not
    called. *)
Theorem crop_returns (img : Image) (width height : Z) (w : World) :
  wf_image img ->
  exists r w',
    crop L img width height w = (Val r, w') /\
    heap w' = heap w /\ fs w' = fs w /\
    match find_crop L (load (heap w) img) width height with
    | Err e =>
        r = Err (errors.Wrap e "Smartcrop failed") /\
        trace w' = trace w ++ [EvSmartcrop img width height]
    | Ok rect =>
        match assert_SubImager img with
        | None =>
            r = Err (errors.New "crop(): img does not support SubImage()") /\
            trace w' = trace w ++ [EvSmartcrop img width height]
        | Some _ =>
            (exists sub, r = Ok sub) /\
            trace w' = trace w ++
                       [EvSmartcrop img width height; EvSubImage img rect]
        end
    end.
Proof.
  intros Hwf.
  destruct (find_crop L (load (heap w) img) width height) as [rect | e] eqn:Hrect.
  - destruct (assert_SubImager img) as [si |] eqn:Hsi.
    + destruct (crop_supported L img si width height w rect Hsi Hwf Hrect)
        as (sub & Hcrop & _).
      eexists. eexists. split; [exact Hcrop |]. cbn [heap fs trace]. eauto.
    + eexists. eexists. split; [by apply crop_unsupported |].
      rewrite Hrect. done.
  - unfold crop, bind, smartcrop_Crop, bind, emit, get_heap, ret.
    cbn [heap fs now rng trace log_event]. rewrite Hrect.
    eexists. eexists. split; [reflexivity |]. done.
Qed.

(** X6.  What [crop] returns for a well-formed image is well formed
    again: every pixel of it, inside its bounds or outside, can be read
    without a panic, and it can be cropped again.  A crop of a crop is
    still a window on the first image: it has no backing array of its
    own, its bounds lie within those of both, and whatever the memory
    holds, its pixels are the pixels of the first image at the same
    coordinates. *)
Theorem crop_of_crop (img s1 s2 : Image) (width height width' height' : Z)
    (w w1 w2 : World) :
  wf_image img ->
  crop L img width height w = (Val (Ok s1), w1) ->
  crop L s1 width' height' w1 = (Val (Ok s2), w2) ->
  wf_image s1 /\ wf_image s2 /\
  (forall h x y, is_Some (At h s1 x y) /\ is_Some (At h s2 x y)) /\
  (forall s, s ∈ planes s2 ->
     arr s = None \/ exists s', s' ∈ planes img /\ arr s = arr s') /\
  forall h x y, PointIn x y (Bounds s2) = true ->
    PointIn x y (Bounds s1) = true /\ PointIn x y (Bounds img) = true /\
    At h s2 x y = At h img x y.
Proof.
  intros Hwf H1 H2.
  destruct (crop_ok_view img s1 width height w w1 Hwf H1)
    as (r1 & si1 & _ & Hsi1 & Hsub1 & (Hb1 & Hwf1 & _ & Hat1) & _).
  destruct (crop_ok_view s1 s2 width' height' w1 w2 Hwf1 H2)
    as (r2 & si2 & _ & Hsi2 & Hsub2 & (Hb2 & Hwf2 & _ & Hat2) & _).
  split; [done |]. split; [done |].
  split; [intros h x y; split; by apply At_total |].
  split.
  - intros s Hs.
    destruct (SubImage_arrays s1 si2 r2 s2 Hsi2 Hsub2 s Hs) as [Hn | (s' & Hs' & Heq)];
      [by left |].
    destruct (SubImage_arrays img si1 r1 s1 Hsi1 Hsub1 s' Hs')
      as [Hn | (s'' & Hs'' & Heq')].
    + left. congruence.
    + right. exists s''. split; [done | congruence].
  - intros h x y Hin.
    assert (Hin1 : PointIn x y (Bounds s1) = true)
      by (rewrite Hb2 in Hin; by apply PointIn_Intersect in Hin as [_ ?]).
    assert (Hin0 : PointIn x y (Bounds img) = true)
      by (rewrite Hb1 in Hin1; by apply PointIn_Intersect in Hin1 as [_ ?]).
    split; [done |]. split; [done |].
    rewrite (Hat2 h x y Hin). by apply Hat1.
Qed.

End CropMore.

Lemma crop_returns_witness :
  exists r w',
    crop demo.libs_requested demo.picture 1000 1000 demo.picture_world = (Val r, w') /\
    heap w' = heap demo.picture_world /\ fs w' = fs demo.picture_world /\
    (exists sub, r = Ok sub) /\
    trace w' = trace demo.picture_world ++
               [EvSmartcrop demo.picture 1000 1000;
                EvSubImage demo.picture (demo.rect 0 0 1000 1000)].
Proof.
  exact (crop_returns demo.libs_requested demo.picture 1000 1000
           demo.picture_world wf_demo_picture).
Defined.

Lemma crop_of_crop_witness :
  let w := demo.picture_world in
  let s1 := ImgPix Gray (Slice (Some 0%nat) 0 6) 3 (demo.rect 0 0 3 2) in
  let s2 := ImgPix Gray (Slice (Some 0%nat) 0 6) 3 (demo.rect 0 0 2 1) in
  let w1 := snd (crop demo.libs_requested demo.picture 1000 1000 w) in
  let w2 := snd (crop demo.libs_requested s1 2 1 w1) in
  crop demo.libs_requested demo.picture 1000 1000 w = (Val (Ok s1), w1) /\
  crop demo.libs_requested s1 2 1 w1 = (Val (Ok s2), w2) /\
  wf_image s1 /\ wf_image s2 /\
  (forall h x y, is_Some (At h s1 x y) /\ is_Some (At h s2 x y)) /\
  (forall s, s ∈ planes s2 ->
     arr s = None \/ exists s', s' ∈ planes demo.picture /\ arr s = arr s') /\
  forall h x y, PointIn x y (Bounds s2) = true ->
    PointIn x y (Bounds s1) = true /\ PointIn x y (Bounds demo.picture) = true /\
    At h s2 x y = At h demo.picture x y.
Proof.
  cbn zeta.
  assert (H1 : crop demo.libs_requested demo.picture 1000 1000 demo.picture_world =
               (Val (Ok (ImgPix Gray (Slice (Some 0%nat) 0 6) 3 (demo.rect 0 0 3 2))),
                snd (crop demo.libs_requested demo.picture 1000 1000
                       demo.picture_world)))
    by (vm_compute; reflexivity).
  assert (H2 : crop demo.libs_requested
                 (ImgPix Gray (Slice (Some 0%nat) 0 6) 3 (demo.rect 0 0 3 2)) 2 1
                 (snd (crop demo.libs_requested demo.picture 1000 1000
                         demo.picture_world)) =
               (Val (Ok (ImgPix Gray (Slice (Some 0%nat) 0 6) 3 (demo.rect 0 0 2 1))),
                snd (crop demo.libs_requested
                       (ImgPix Gray (Slice (Some 0%nat) 0 6) 3 (demo.rect 0 0 3 2))
                       2 1
                       (snd (crop demo.libs_requested demo.picture 1000 1000
                               demo.picture_world)))))
    by (vm_compute; reflexivity).
  split; [exact H1 |]. split; [exact H2 |].
  exact (crop_of_crop demo.libs_requested _ _ _ _ _ _ _ _ _ _ wf_demo_picture H1 H2).
Defined.

(* ================================================================== *)
(** * The run of [main], further *)


Section MainMore.

Variable L : Libs.

Lemma openImage_val (p : string) (w : World) :
  exists r w1, openImage L p w = (Val r, w1).
Proof.
  rewrite openImage_eq.
  destruct (open_refused L p); [eauto |].
  destruct (fs w !! p) as [data |]; [| eauto].
  destruct (decode_jpeg L data) as [d | e]; [| eauto].
  match goal with
  | |- context [new_image d ?w0] =>
      destruct (new_image_total d w0) as (img & Hnew & _)
  end.
  rewrite Hnew. eauto.
Qed.

Lemma saveImage_val (img : Image) (pname fname : string) (w : World) :
  exists r w1, saveImage L img pname fname w = (Val r, w1).
Proof.
  rewrite saveImage_eq. cbn zeta.
  destruct (create_refused L _); [eauto |].
  destruct (encode_jpeg L (load (heap w) img) 85). eauto.
Qed.

Lemma crop_val_or_panic (img : Image) (width height : Z) (w : World) :
  (exists r w1, crop L img width height w = (Val r, w1)) \/
  (exists w1, crop L img width height w = (Panic, w1)).
Proof.
  unfold crop, bind, smartcrop_Crop, bind, emit, get_heap, ret, call_SubImage.
  cbn [heap fs now rng trace log_event].
  destruct (find_crop L (load (heap w) img) width height); [| eauto].
  destruct (assert_SubImager img) as [si |]; [| eauto].
  destruct (SubImage si _); eauto.
Qed.

Lemma effect_val (ev : Event) (f : Heap -> ImageData) (w : World) :
  exists out w1,
    (emit ev ;; h <- get_heap ;; new_image (f h))%go w = (Val out, w1).
Proof. destruct (effect_total ev f w) as (out & H & _). eauto. Qed.

Ltac run_step H := rewrite (bind_val _ _ _ _ _ H); cbv beta iota.

(** However [main] ends, it ends in one of three ways: it returns; a
    step has failed and the process exits with status 1; or [SubImage]
    has panicked inside [crop]. *)
Lemma main_outcome (w : World) :
  (exists wf, main L w = (Val tt, wf)) \/
  (exists e wf, StepFails L w e wf /\
                main L w = (Exit 1, log_event (EvFatal (errors.Error e)) wf)) \/
  (exists img w1 w2, loaded L w img w1 /\
                     crop L img 1000 1000 w1 = (Panic, w2) /\
                     main L w = (Panic, w2)).
Proof.
  assert (Hstop : forall e wf, StepFails L w e wf ->
            (exists wf, main L w = (Val tt, wf)) \/
            (exists e wf, StepFails L w e wf /\
               main L w = (Exit 1, log_event (EvFatal (errors.Error e)) wf)) \/
            (exists img w1 w2, loaded L w img w1 /\
               crop L img 1000 1000 w1 = (Panic, w2) /\ main L w = (Panic, w2))).
  { intros e wf Hf. right. left. exists e, wf. split; [done |].
    by apply main_stops. }
  destruct (openImage_val "original.jpg" w) as ([img | e] & w1 & H0);
    [| eapply Hstop, fails_load; eauto].
  destruct (crop_val_or_panic img 1000 1000 w1) as [([sub | e] & w2 & H1) | (w2 & H1)].
  2: { eapply Hstop, fails_crop; eauto. }
  2: { right. right. exists img, w1, w2. split; [done |]. split; [done |].
       unfold main. run_step H0. unfold bind at 1. by rewrite H1. }
  assert (Hc : cropped L w sub w2) by (exists img, w1; done).
  destruct (saveImage_val sub "." "cropped.jpg" w2) as ([e |] & w3 & H2);
    [eapply Hstop, fails_save_cropped; eauto |].
  assert (Hsc : saved_cropped L w w3) by (exists sub, w2; done).
  destruct (openImage_val "cropped.jpg" w3) as ([img' | e] & w4 & H3);
    [| eapply Hstop, fails_reload; eauto].
  assert (Hr : reloaded L w img' w4) by (exists w3; done).
  destruct (effect_val (EvSaturation img' 0.5%float)
              (fun h => saturation L (load h img') 0.5%float) w4)
    as (sat & w5 & H4).
  change (saturate L img' w4 = (Val sat, w5)) in H4.
  assert (Hs : saturated L w img' sat w5) by (exists w4; done).
  destruct (saveImage_val sat "." "saturated.jpg" w5) as ([e |] & w6 & H5);
    [eapply Hstop, fails_save_saturated; eauto |].
  assert (Hss : saved_saturated L w img' sat w6) by (exists w5; done).
  destruct (effect_val (EvMultiply img' img')
              (fun h => multiply_blend L (load h img') (load h img')) w6)
    as (mult & w7 & H6).
  change (multiply L img' w6 = (Val mult, w7)) in H6.
  assert (Hm : multiplied L w sat mult w7) by (exists img', w6; done).
  destruct (saveImage_val mult "." "multiplied.jpg" w7) as ([e |] & w8 & H7);
    [eapply Hstop, fails_save_multiplied; eauto |].
  assert (Hsm : saved_multiplied L w sat w8) by (exists mult, w7; done).
  destruct (effect_val (EvUnsharpMask sat 0.6%float 1.2%float)
              (fun h => unsharp_mask L (load h sat) 0.6%float 1.2%float) w8)
    as (shrp & w9 & H8).
  change (sharpen L sat w8 = (Val shrp, w9)) in H8.
  assert (Hsh : sharpened L w sat shrp w9) by (exists w8; done).
  destruct (saveImage_val shrp "." "sharpened.jpg" w9) as ([e |] & w10 & H9);
    [eapply Hstop, fails_save_sharpened; eauto |].
  assert (Hssh : saved_sharpened L w sat w10) by (exists shrp, w9; done).
  destruct (primitivePicture_total L sat w10) as (small & pri & H10 & _).
  match type of H10 with _ = (_, ?w11) => set (w11' := w11) in * end.
  assert (Ha : approximated L w pri w11') by (exists sat, w10; done).
  destruct (saveImage_val pri "." "primitive.jpg" w11') as ([e |] & w12 & H11);
    [eapply Hstop, fails_save_primitive; eauto |].
  left. exists w12. unfold main.
  run_step H0. run_step H1. run_step H2. run_step H3. run_step H4. run_step H5.
  run_step H6. run_step H7. run_step H8. run_step H9. run_step H10. run_step H11.
  reflexivity.
Qed.


Lemma openImage_error_shape (p : string) (w w' : World) (e : error) :
  openImage L p w = (Val (Err e), w') ->
  (exists cause, e = errors.Wrap cause ("Cannot open " +:+ p)) \/
  (exists cause, e = errors.Wrap cause "Decoding the image failed.").
Proof.
  intros H.
  destruct (openImage_failure L p w w' e H)
    as (_ & _ & [(cause & -> & _) | (cause & data & -> & _)]); eauto.
Qed.

Lemma crop_error_shape (img : Image) (width height : Z) (w w' : World) (e : error) :
  crop L img width height w = (Val (Err e), w') ->
  (exists cause, e = errors.Wrap cause "Smartcrop failed") \/
  e = errors.New "crop(): img does not support SubImage()".
Proof.
  unfold crop, bind, smartcrop_Crop, bind, emit, get_heap, ret, call_SubImage.
  cbn [heap fs now rng trace log_event].
  destruct (find_crop L (load (heap w) img) width height) as [rect | e0].
  - destruct (assert_SubImager img) as [si |].
    + destruct (SubImage si rect); discriminate.
    + intros H. inversion H. by right.
  - intros H. inversion H. left. eauto.
Qed.

Lemma saveImage_error_shape (img : Image) (pname fname : string) (w w' : World)
    (e : error) :
  saveImage L img pname fname w = (Val (Some e), w') ->
  (exists cause,
     e = errors.Wrap cause ("Cannot create file: " +:+ path.Join [pname; fname])) \/
  (exists cause, e = errors.Wrap cause "Failed to encode the image as JPEG").
Proof.
  rewrite saveImage_eq. cbn zeta.
  destruct (create_refused L _) as [e0 |].
  - intros H. inversion H. left. eauto.
  - destruct (encode_jpeg L (load (heap w) img) 85) as [written [e0 |]];
      intros H; inversion H. right. eauto.
Qed.

(** X8.  Every error a failing step of [main] returns has one of six
    forms: a cause wrapped in "Cannot open" and one of the two input
    names, a cause wrapped in "Decoding the image failed.", a cause
    wrapped in "Smartcrop failed", the missing-method error of [crop], a
    cause wrapped in "Cannot create file:" and one of the five output
    names, or a cause wrapped in "Failed to encode the image as JPEG". *)
Theorem main_error_forms (w wf : World) (e : error) :
  StepFails L w e wf -> main_error e.
Proof.
  assert (Hsave : forall img name w0 w1 e0,
            name ∈ ["cropped.jpg"; "saturated.jpg"; "multiplied.jpg";
                    "sharpened.jpg"; "primitive.jpg"] ->
            path.Join ["."; name] = name ->
            saveImage L img "." name w0 = (Val (Some e0), w1) -> main_error e0).
  { intros img name w0 w1 e0 Hin Hjoin H.
    destruct (saveImage_error_shape img "." name w0 w1 e0 H)
      as [(cause & ->) | (cause & ->)].
    - rewrite Hjoin. by constructor.
    - constructor. }
  assert (Hopen : forall name w0 w1 e0,
            name ∈ ["original.jpg"; "cropped.jpg"] ->
            openImage L name w0 = (Val (Err e0), w1) -> main_error e0).
  { intros name w0 w1 e0 Hin H.
    destruct (openImage_error_shape name w0 w1 e0 H) as [(cause & ->) | (cause & ->)].
    - by constructor.
    - constructor. }
  intros [e0 wf0 H | img w1 e0 wf0 _ H | sub w2 e0 wf0 _ H | w3 e0 wf0 _ H
         | img sat w5 e0 wf0 _ H | sat mult w7 e0 wf0 _ H
         | sat shrp w9 e0 wf0 _ H | pri w11 e0 wf0 _ H].
  - eapply Hopen; [| exact H]. set_solver.
  - destruct (crop_error_shape _ _ _ _ _ _ H) as [(cause & ->) | ->]; constructor.
  - eapply Hsave; [| | exact H]; [set_solver | reflexivity].
  - eapply Hopen; [| exact H]. set_solver.
  - eapply Hsave; [| | exact H]; [set_solver | reflexivity].
  - eapply Hsave; [| | exact H]; [set_solver | reflexivity].
  - eapply Hsave; [| | exact H]; [set_solver | reflexivity].
  - eapply Hsave; [| | exact H]; [set_solver | reflexivity].
Qed.

(** X7.  The only way [main] ends the process is [log.Fatal] after a
    failed step: when it exits, the status is 1, some step has returned
    an error in the world the steps before it produced, and the final
    world is the one that step left with the message of its error logged
    last. *)
Theorem main_exits_only_on_failure (w w' : World) (c : Z) :
  main L w = (Exit c, w') ->
  c = 1 /\
  exists e wf,
    StepFails L w e wf /\
    w' = log_event (EvFatal (errors.Error e)) wf /\
    last (trace w') = Some (EvFatal (errors.Error e)).
Proof.
  intros H.
  destruct (main_outcome w) as [(wf & Hv) | [(e & wf & Hf & He) | (img & w1 & w2 & _ & _ & Hp)]].
  - rewrite Hv in H. discriminate.
  - rewrite He in H. inversion H; subst c w'. split; [done |].
    exists e, wf. split; [done |]. split; [done |].
    cbn [trace log_event]. apply last_snoc.
  - rewrite Hp in H. discriminate.
Qed.


(** X10.  After a complete run the files tell how they were made.
    [original.jpg] is as it was.  [cropped.jpg] decodes, and with [d] the
    decoded picture: [saturated.jpg] is the encoding of [d] saturated by
    0.5, [multiplied.jpg] that of [d] multiplied with itself,
    [sharpened.jpg] that of the saturated picture sharpened with radius
    0.6 and amount 1.2, and [primitive.jpg] that of the canvas after one
    hundred shapes fitted to the saturated picture resized to 256 by 256;
    all at quality 85. *)
Theorem main_output_files (w wf : World) :
  main L w = (Val tt, wf) ->
  exists (c : list Z) (d : ImageData),
    let sat := saturation L d 0.5%float in
    let small := resize L sat 256 256 Linear in
    let bg := make_color L (average_color L small) in
    let canvas :=
      context_image L
        (fst (let '(m, s) := new_model L small bg 1024 (num_cpu L) (now w) in
              fitted L 100 m s)) in
    fs wf !! "original.jpg" = fs w !! "original.jpg" /\
    fs wf !! "cropped.jpg" = Some c /\
    decode_jpeg L c = Ok d /\
    fs wf !! "saturated.jpg" = Some (fst (encode_jpeg L sat 85)) /\
    fs wf !! "multiplied.jpg" = Some (fst (encode_jpeg L (multiply_blend L d d) 85)) /\
    fs wf !! "sharpened.jpg" =
      Some (fst (encode_jpeg L (unsharp_mask L sat 0.6%float 1.2%float) 85)) /\
    fs wf !! "primitive.jpg" = Some (fst (encode_jpeg L canvas 85)).
Proof.
  intros Hmain.
  destruct (main_run L w wf Hmain)
    as (img & rect & sub & img' & sat & mult & shrp & small & pri & c & H).
  cbn zeta in H.
  destruct H as (_ & _ & _ & _ & Hdec & _ & Hsat & Hmult & Hshrp & Hsmall & Hc
                 & Hpri & Hfs).
  exists (fst (encode_jpeg L (load (heap wf) sub) 85)), (load (heap wf) img').
  cbn zeta. rewrite Hfs. clear Hfs.
  rewrite <- Hsat, <- Hmult, <- Hshrp, <- Hsmall, <- Hc, <- Hpri.
  split; [by rewrite !lookup_insert_ne |].
  split; [rewrite !lookup_insert_ne by done; apply lookup_insert_eq |].
  split; [done |].
  split; [rewrite !lookup_insert_ne by done; apply lookup_insert_eq |].
  split; [rewrite !lookup_insert_ne by done; apply lookup_insert_eq |].
  split; [rewrite !lookup_insert_ne by done; apply lookup_insert_eq |].
  apply lookup_insert_eq.
Qed.

(** X11.  Without [original.jpg], [main] stops at its first call: it
    logs "Cannot open original.jpg: open original.jpg: no such file or
    directory" and exits with status 1, having called nothing but
    [os.Open] and changed neither files nor memory. *)
Theorem main_missing_input (w : World) :
  open_refused L "original.jpg" = None ->
  fs w !! "original.jpg" = None ->
  main L w =
    (Exit 1,
     mkWorld (heap w) (fs w) (now w) (rng w)
       (trace w ++
        [EvOpen "original.jpg";
         EvFatal "Cannot open original.jpg: open original.jpg: no such file or directory"])).
Proof.
  intros Hopen Hfs.
  assert (H0 : openImage L "original.jpg" w =
               (Val (Err (errors.Wrap
                            (errors.New "open original.jpg: no such file or directory")
                            "Cannot open original.jpg")),
                log_event (EvOpen "original.jpg") w))
    by (rewrite openImage_eq, Hopen, Hfs; reflexivity).
  rewrite (main_stops L w _ _ (fails_load L w _ _ H0)).
  unfold log_event. cbn [heap fs now rng trace errors.Error].
  by rewrite <- app_assoc.
Qed.

End MainMore.

(* ================================================================== *)
(** * Joining the directory [.] and a file name *)

Lemma is_slash_false (c : ascii) : c <> "/"%char -> path.is_slash c = false.
Proof. intros H. unfold path.is_slash. by apply Ascii.eqb_neq. Qed.

Lemma is_dot_true (c : ascii) : path.is_dot c = true -> c = "."%char.
Proof. unfold path.is_dot. apply Ascii.eqb_eq. Qed.

(** Copying a path element without a slash that ends the path: the
    element is written at the write index and the read index reaches the
    end. *)
Lemma copy_element_spec (rest pre : list ascii) (fuel : nat)
    (buf0 : list ascii) (w0 : nat) :
  (length rest <= fuel)%nat ->
  Forall (fun c => c <> "/"%char) rest ->
  (w0 + length rest <= length buf0)%nat ->
  exists buf',
    path.copy_element fuel (pre ++ rest) (length (pre ++ rest)) (length pre)
                      (path.LazyBuf buf0 w0) =
      (length (pre ++ rest), path.LazyBuf buf' (w0 + length rest)) /\
    take (w0 + length rest) buf' = take w0 buf0 ++ rest.
Proof.
  revert pre fuel buf0 w0.
  induction rest as [| c rest IH]; intros pre fuel buf0 w0 Hfuel Hns Hlen.
  - exists buf0. rewrite app_nil_r, Nat.add_0_r. split; [| by rewrite app_nil_r].
    destruct fuel; simpl; [done |].
    by rewrite Nat.ltb_irrefl.
  - destruct fuel as [| fuel]; [simpl in Hfuel; lia |].
    inversion Hns as [| ? ? Hc Hrest]; subst.
    simpl in Hfuel, Hlen.
    cbn [path.copy_element].
    assert (Hlt : (length pre <? length (pre ++ c :: rest))%nat = true)
      by (apply Nat.ltb_lt; rewrite length_app; simpl; lia).
    rewrite Hlt, nth_middle, (is_slash_false c Hc). cbn [andb negb].
    unfold path.append. cbn [path.buf path.w].
    destruct (IH (pre ++ [c]) fuel (<[w0 := c]> buf0) (S w0)) as (buf' & Heq & Htake);
      [lia | done | rewrite length_insert; lia |].
    rewrite <- app_assoc in Heq. cbn [app] in Heq.
    replace (length (pre ++ [c])) with (S (length pre)) in Heq
      by (rewrite length_app; simpl; lia).
    exists buf'. replace (w0 + length (c :: rest))%nat with (S w0 + length rest)%nat
      by (simpl; lia).
    split; [exact Heq |].
    rewrite Htake.
    rewrite (take_S_r _ _ c) by (apply list_lookup_insert_eq; lia).
    rewrite take_insert_ge by lia. by rewrite <- app_assoc.
Qed.

Lemma clean_loop_done (fuel : nat) (p : list ascii) (n : nat) (rooted : bool)
    (dotdot : nat) (out : path.lazybuf) :
  path.clean_loop fuel p n rooted n dotdot out = out.
Proof. destruct fuel; simpl; [done |]. by rewrite Nat.ltb_irrefl. Qed.

(** [Clean] of [./] followed by a file name proper is the file name. *)
Lemma Clean_dot_slash (l : list ascii) :
  l <> [] -> l <> ["."%char] -> l <> ["."%char; "."%char] ->
  Forall (fun c => c <> "/"%char) l ->
  path.Clean (String "." (String "/" (string_of_list_ascii l))) =
  string_of_list_ascii l.
Proof.
  intros Hne Hdot Hdotdot Hns.
  destruct l as [| c0 l']; [done |].
  unfold path.Clean.
  change (list_ascii_of_string (String "." (String "/" (string_of_list_ascii (c0 :: l')))))
    with ("."%char :: "/"%char ::
          list_ascii_of_string (string_of_list_ascii (c0 :: l'))).
  rewrite list_ascii_of_string_of_list_ascii.
  set (p := "."%char :: "/"%char :: c0 :: l').
  change (path.is_slash ".") with false. cbv iota.
  change (length p) with (S (S (S (length l')))).
  inversion Hns as [| ? ? Hc0 Hl']; subst.
  (* the three turns of the loop: [.], [/] and the name *)
  assert (Hloop :
    path.clean_loop (S (S (S (length l')))) p (S (S (S (length l')))) false 0 0
                    (path.LazyBuf p 0) =
    path.clean_loop (length l') p (S (S (S (length l')))) false
      (fst (path.copy_element (S (S (S (length l')))) p (S (S (S (length l')))) 2
                              (path.LazyBuf p 0)))
      0
      (snd (path.copy_element (S (S (S (length l')))) p (S (S (S (length l')))) 2
                              (path.LazyBuf p 0)))).
  { cbn -[path.copy_element].
    rewrite (is_slash_false c0 Hc0).
    destruct (path.is_dot c0) eqn:Hd0.
    - apply is_dot_true in Hd0. subst c0.
      destruct l' as [| c1 l'']; [done |].
      inversion Hl' as [| ? ? Hc1 Hl'']; subst.
      cbn -[path.copy_element].
      rewrite (is_slash_false c1 Hc1). cbn -[path.copy_element].
      destruct (path.is_dot c1) eqn:Hd1.
      + apply is_dot_true in Hd1. subst c1.
        destruct l'' as [| c2 l3]; [done |].
        inversion Hl'' as [| ? ? Hc2 Hl3]; subst.
        cbn -[path.copy_element].
        rewrite (is_slash_false c2 Hc2). cbn -[path.copy_element].
        by destruct (path.copy_element _ _ _ _ _).
      + cbn -[path.copy_element]. by destruct (path.copy_element _ _ _ _ _).
    - cbn -[path.copy_element]. by destruct (path.copy_element _ _ _ _ _). }
  rewrite Hloop. clear Hloop.
  destruct (copy_element_spec (c0 :: l') ["."%char; "/"%char]
              (S (S (S (length l')))) p 0) as (buf' & Hcopy & Htake).
  { simpl. lia. }
  { done. }
  { simpl. lia. }
  change (["."%char; "/"%char] ++ c0 :: l') with p in Hcopy.
  change (length p) with (S (S (S (length l')))) in Hcopy.
  change (length ["."%char; "/"%char]) with 2%nat in Hcopy.
  rewrite Hcopy. cbn [fst snd].
  rewrite clean_loop_done. cbn [path.w length Nat.add Nat.eqb].
  unfold path.to_string. cbn [path.buf path.w].
  cbn [length Nat.add] in Htake. by rewrite Htake.
Qed.

(** X12.  In the directory [.] a file name proper is its own path:
    [path.Join] yields the name unchanged, so whatever [saveImage] does
    for such a name in [.], it does to the file of that very name; no
    other file is created or changed. *)
Theorem saveImage_in_working_directory (L : Libs) (img : Image)
    (fname : string) (w : World) :
  simple_name fname ->
  path.Join ["."; fname] = fname /\
  exists r w',
    saveImage L img "." fname w = (Val r, w') /\
    created (drop (length (trace w)) (trace w')) = [fname] /\
    forall other, other <> fname -> fs w' !! other = fs w !! other.
Proof.
  intros (Hne & Hdot & Hdotdot & Hns).
  assert (Hjoin : path.Join ["."; fname] = fname).
  { unfold path.Join. cbn [String.eqb Ascii.eqb]. cbn [path.strings_Join].
    change ("." +:+ "/" +:+ fname) with (String "." (String "/" fname)).
    rewrite <- (string_of_list_ascii_of_string fname) at 1 2.
    apply Clean_dot_slash; try done.
    - intros Hl. apply Hne. rewrite <- (string_of_list_ascii_of_string fname).
      by rewrite Hl.
    - intros Hl. apply Hdot. rewrite <- (string_of_list_ascii_of_string fname).
      by rewrite Hl.
    - intros Hl. apply Hdotdot. rewrite <- (string_of_list_ascii_of_string fname).
      by rewrite Hl. }
  split; [exact Hjoin |].
  rewrite saveImage_eq. cbn zeta. rewrite Hjoin.
  destruct (create_refused L fname) as [e |].
  - eexists. eexists. split; [reflexivity |].
    cbn [trace fs log_event]. rewrite drop_app_length. done.
  - destruct (encode_jpeg L (load (heap w) img) 85) as [written err].
    eexists. eexists. split; [reflexivity |].
    cbn [trace fs]. rewrite drop_app_length. split; [done |].
    intros other Hother. by apply lookup_insert_ne.
Qed.

Lemma saveImage_in_working_directory_witness :
  path.Join ["."; "cropped.jpg"] = "cropped.jpg" /\
  exists r w',
    saveImage demo.libs demo.picture "." "cropped.jpg" demo.picture_world_stale =
      (Val r, w') /\
    created (drop (length (trace demo.picture_world_stale)) (trace w')) =
      ["cropped.jpg"] /\
    forall other, other <> "cropped.jpg" ->
      fs w' !! other = fs demo.picture_world_stale !! other.
Proof.
  apply (saveImage_in_working_directory demo.libs demo.picture "cropped.jpg"
           demo.picture_world_stale).
  unfold simple_name. split; [discriminate |]. split; [discriminate |].
  split; [discriminate |].
  repeat (constructor; [discriminate |]). constructor.
Defined.


Lemma main_exits_only_on_failure_witness :
  let L := demo.libs_refused in
  let w := demo.world in
  let w' := snd (main L w) in
  main L w = (Exit 1, w') /\
  1 = 1 /\
  exists e wf,
    StepFails L w e wf /\
    w' = log_event (EvFatal (errors.Error e)) wf /\
    last (trace w') = Some (EvFatal (errors.Error e)).
Proof.
  cbn zeta.
  assert (Hrun : main demo.libs_refused demo.world =
                 (Exit 1, snd (main demo.libs_refused demo.world)))
    by (vm_compute; reflexivity).
  split; [exact Hrun |].
  exact (main_exits_only_on_failure demo.libs_refused _ _ _ Hrun).
Defined.

Lemma main_error_forms_witness :
  main_error (errors.Wrap (errors.New "open saturated.jpg: permission denied")
                          "Cannot create file: saturated.jpg").
Proof.
  destruct refused_run_step_fails as (wf & Hfail & _).
  exact (main_error_forms demo.libs_refused demo.world wf _ Hfail).
Defined.


Lemma main_output_files_witness :
  let L := demo.libs in
  let w := demo.world in
  let wf := snd (main L w) in
  main L w = (Val tt, wf) /\
  exists (c : list Z) (d : ImageData),
    let sat := saturation L d 0.5%float in
    let small := resize L sat 256 256 Linear in
    let bg := make_color L (average_color L small) in
    let canvas :=
      context_image L
        (fst (let '(m, s) := new_model L small bg 1024 (num_cpu L) (now w) in
              fitted L 100 m s)) in
    fs wf !! "original.jpg" = fs w !! "original.jpg" /\
    fs wf !! "cropped.jpg" = Some c /\
    decode_jpeg L c = Ok d /\
    fs wf !! "saturated.jpg" = Some (fst (encode_jpeg L sat 85)) /\
    fs wf !! "multiplied.jpg" = Some (fst (encode_jpeg L (multiply_blend L d d) 85)) /\
    fs wf !! "sharpened.jpg" =
      Some (fst (encode_jpeg L (unsharp_mask L sat 0.6%float 1.2%float) 85)) /\
    fs wf !! "primitive.jpg" = Some (fst (encode_jpeg L canvas 85)).
Proof.
  cbn zeta.
  assert (Hrun : main demo.libs demo.world = (Val tt, snd (main demo.libs demo.world)))
    by (vm_compute; reflexivity).
  split; [exact Hrun |].
  exact (main_output_files demo.libs demo.world _ Hrun).
Defined.

Lemma main_missing_input_witness :
  main demo.libs demo.world_empty =
    (Exit 1,
     mkWorld (heap demo.world_empty) (fs demo.world_empty) (now demo.world_empty)
       (rng demo.world_empty)
       (trace demo.world_empty ++
        [EvOpen "original.jpg";
         EvFatal "Cannot open original.jpg: open original.jpg: no such file or directory"])).
Proof.
  apply (main_missing_input demo.libs demo.world_empty).
  - reflexivity.
  - reflexivity.
Defined.
